(** * dbspy: streams over an Abelian group and their operators

    A shallow embedding of [dbspy/stream/__init__.py] and
    [dbspy/stream/operators/linear.py].

    - A [Stream] is a record with the fields of the Python class.  The two
      [OrderedDict]s are association lists in insertion order, because
      [OrderedDict.__eq__] compares the order of the entries too.
    - Streams are mutable objects shared between operators through
      [StreamHandle]s, so they live in a [Store] and a handle is a location
      of the store.
    - Code that mutates streams runs in the monad [M]: it threads the store
      and ends with a value, with a raised exception, or without fuel (the
      [while] loop of [step_until_fixpoint] has no bound of its own).
    - An operator is a record of its handles and frontiers.  A step returns
      the record with the new frontiers next to its result; when a step
      raises, the store keeps what was written before and the record is
      not used again.
    - Streams whose elements are streams are embedded apart, in
      [StreamOfStreams]: there the elements are objects as well, and [add],
      [neg] and [!=] on them run code. *)

From Stdlib Require Import ZArith Lia List.
From stdpp Require Import base decidable list.

Local Open Scope Z_scope.

(** ** The group capability

    [dbspy.core.AbelianGroupOperation] is an abstract interface with the three
    methods below; the streams only ever call these. *)

Module Group.
Class AbelianGroupOperation (T : Type) : Type := {
  add : T -> T -> T;
  neg : T -> T;
  identity : T
}.

(** The laws the interface asks of an implementation. *)
Class Laws (T : Type) `{AbelianGroupOperation T} : Prop := {
  add_comm : forall a b : T, add a b = add b a;
  add_assoc : forall a b c : T, add a (add b c) = add (add a b) c;
  add_identity : forall a : T, add a identity = a;
  add_neg : forall a : T, add a (neg a) = identity
}.
End Group.

(** Integers under addition, the group of the spec's scenarios. *)
#[export] Instance IntegerAddition : Group.AbelianGroupOperation Z :=
  {| Group.add := Z.add; Group.neg := Z.opp; Group.identity := 0 |}.

(** ** Outcomes of effectful code *)

Inductive exn : Type :=
| ValueError      (* raised by [Stream.__getitem__] *)
| KeyError        (* a subscript of a dict on a missing key *)
| AttributeError. (* an attribute that was never bound *)

Inductive outcome (A : Type) : Type :=
| Ret (a : A)
| Raise (e : exn)
| OutOfFuel.
Arguments Ret {A} a.
Arguments Raise {A} e.
Arguments OutOfFuel {A}.

(** ** OrderedDict with integer keys *)

Section ordered_dict.
Context {V : Type}.

(** [d.get(k)] *)
Fixpoint od_get (k : Z) (d : list (Z * V)) : option V :=
  match d with
  | [] => None
  | (k', v) :: d' => if decide (k' = k) then Some v else od_get k d'
  end.

(** [d[k] = v]: an existing key keeps its place, a new key goes last. *)
Fixpoint od_set (k : Z) (v : V) (d : list (Z * V)) : list (Z * V) :=
  match d with
  | [] => [(k, v)]
  | (k', v') :: d' =>
      if decide (k' = k) then (k, v) :: d' else (k', v') :: od_set k v d'
  end.
End ordered_dict.

(** [max((t for t in keys if t < timestamp), default=0)] *)
Definition max_below (keys : list Z) (timestamp : Z) : Z :=
  match List.filter (fun t => t <? timestamp) keys with
  | [] => 0
  | t :: ts => fold_left Z.max ts t
  end.

(** ** Stream *)

Section stream.
Context {T : Type} `{EqDecision T} `{Group.AbelianGroupOperation T}.

Record Stream : Type := mkStream {
  timestamp : Z;
  inner : list (Z * T);
  identity : bool;
  default : T;
  default_changes : list (Z * T)
}.

(** [send]: the element is recorded only when it differs from the default;
    the cursor advances in both cases. *)
Definition send (element : T) (self : Stream) : Stream :=
  if decide (element = default self) then
    mkStream (timestamp self + 1) (inner self) (identity self)
             (default self) (default_changes self)
  else
    mkStream (timestamp self + 1)
             (od_set (timestamp self + 1) element (inner self)) false
             (default self) (default_changes self).

(** [Stream.__init__]: the fields are set with the cursor at -1, then the
    identity is sent once. *)
Definition Stream_init : Stream :=
  send Group.identity
       (mkStream (-1) [] true Group.identity [(0, Group.identity)]).

Definition get_current_time (self : Stream) : Z := timestamp self.

Definition is_identity_stream (self : Stream) : bool := identity self.

(** [set_default] is a placeholder: its body is [return NotImplementedError],
    which returns the exception class to a caller that drops it and changes
    nothing. *)
Definition set_default (new_default : T) (self : Stream) : Stream := self.

(** The branch [timestamp <= self.get_current_time()] of [__getitem__].
    Python evaluates the argument [self.default_changes[default_timestamp]]
    before calling [get], so a missing key raises even when the timestamp
    is recorded in [inner]. *)
Definition getitem_recorded (timestamp : Z) (self : Stream) : outcome T :=
  let default_timestamp :=
    max_below (map fst (default_changes self)) timestamp in
  match od_get default_timestamp (default_changes self) with
  | None => Raise KeyError
  | Some d =>
      Ret (match od_get timestamp (inner self) with
           | Some v => v
           | None => d
           end)
  end.

(** [while timestamp > self.get_current_time(): self.send(self.default)].
    [None] when the fuel ends with the guard still true. *)
Fixpoint send_default_while (fuel : nat) (timestamp : Z) (self : Stream)
  : option Stream :=
  if timestamp >? get_current_time self then
    match fuel with
    | O => None
    | S fuel' =>
        send_default_while fuel' timestamp (send (default self) self)
    end
  else Some self.

(** [__getitem__], with [depth] bounding the recursive call at the end of
    the second branch.  The result pairs the outcome with the stream as the
    call leaves it. *)
Fixpoint getitem_rec (depth : nat) (timestamp : Z) (self : Stream)
  : outcome T * Stream :=
  if timestamp <? 0 then (Raise ValueError, self)
  else if timestamp <=? get_current_time self then
    (getitem_recorded timestamp self, self)
  else
    match send_default_while
            (Z.to_nat (timestamp - get_current_time self)) timestamp self
    with
    | None => (OutOfFuel, self)
    | Some self' =>
        match depth with
        | O => (OutOfFuel, self')
        | S depth' => getitem_rec depth' timestamp self'
        end
    end.

(** One recursive call is all [__getitem__] ever makes: see
    [getitem_returns]. *)
Definition getitem (timestamp : Z) (self : Stream) : outcome T * Stream :=
  getitem_rec 1 timestamp self.

(** [latest] *)
Definition latest (self : Stream) : outcome T * Stream :=
  getitem (get_current_time self) self.

(** [__eq__] on two streams.  Both [inner]s are [OrderedDict]s, whose
    equality is that of the entry lists. *)
Definition Stream_eq (self other : Stream) : bool :=
  if is_identity_stream self && is_identity_stream other then true
  else if negb (get_current_time self =? get_current_time other) then false
  else bool_decide (inner self = inner other).

End stream.

Arguments Stream T : clear implicits.

(** ** The store, handles and the monad of stream programs *)

(** A [StreamHandle] is a closure that returns a stream object; here it is
    the location of that object in the store. *)
Abbreviation StreamHandle := nat (only parsing).

(** The store holds the stream objects, each at its location. *)
Abbreviation Store T := (list (Stream T)).

Section store.
Context {T : Type} `{EqDecision T} `{Group.AbelianGroupOperation T}.

Definition M (A : Type) : Type := Store T -> outcome A * Store T.

Definition ret {A} (a : A) : M A := fun st => (Ret a, st).

Definition raise {A} (e : exn) : M A := fun st => (Raise e, st).

Definition bind {A B} (m : M A) (k : A -> M B) : M B :=
  fun st =>
    match m st with
    | (Ret a, st') => k a st'
    | (Raise e, st') => (Raise e, st')
    | (OutOfFuel, st') => (OutOfFuel, st')
    end.

(** Run a method of the stream behind a handle and write the stream back.
    A handle that resolves to no stream fails the way an unbound attribute
    does. *)
Definition on_stream {A} (h : StreamHandle)
    (method : Stream T -> outcome A * Stream T) : M A :=
  fun st =>
    match st !! h with
    | None => (Raise AttributeError, st)
    | Some s => let '(r, s') := method s in (r, <[h := s']> st)
    end.

(** Methods that only read, and methods that only write. *)
Definition reading {A} (f : Stream T -> A) (s : Stream T)
  : outcome A * Stream T := (Ret (f s), s).

Definition writing (f : Stream T -> Stream T) (s : Stream T)
  : outcome unit * Stream T := (Ret tt, f s).

(** [Stream(group)]: a new stream object. *)
Definition new_stream : M StreamHandle :=
  fun st => (Ret (length st), st ++ [Stream_init]).
End store.

Arguments M T A : clear implicits.

Declare Scope stream_scope.
Delimit Scope stream_scope with stream.
Notation "x <- m ;; k" := (bind m (fun x => k))
  (at level 100, m at next level, right associativity) : stream_scope.
Notation "m ;;; k" := (bind m (fun _ => k))
  (at level 100, right associativity) : stream_scope.
Local Open Scope stream_scope.

(** ** Operators *)

Section operators.
Context {T : Type} `{EqDecision T} `{Group.AbelianGroupOperation T}.

(** [__iter__] and [to_list]: the range is computed once, then every
    timestamp of it is read with [__getitem__]. *)
Fixpoint iter_timestamps (ts : list Z) (self : Stream T)
  : outcome (list T) * Stream T :=
  match ts with
  | [] => (Ret [], self)
  | t :: ts' =>
      match getitem t self with
      | (Ret v, self') =>
          match iter_timestamps ts' self' with
          | (Ret vs, self'') => (Ret (v :: vs), self'')
          | r => r
          end
      | (Raise e, self') => (Raise e, self')
      | (OutOfFuel, self') => (OutOfFuel, self')
      end
  end.

Definition to_list (self : Stream T) : outcome (list T) * Stream T :=
  iter_timestamps
    (map Z.of_nat (seq 0 (Z.to_nat (get_current_time self + 1)))) self.

(** The interface [Operator]: one [step], which reports whether the
    operator is at its fixpoint, and the handle of the output.  A step
    returns the operator too, since the frontiers are fields of it. *)
Class Operator (Op : Type) : Type := {
  step : Op -> M T (bool * Op);
  output_handle : Op -> StreamHandle
}.

(** [while not operator.step(): pass] *)
Fixpoint step_until_fixpoint {Op : Type} {HOp : Operator Op} (fuel : nat)
    (operator : Op) : M T Op :=
  match fuel with
  | O => fun st => (OutOfFuel, st)
  | S fuel' =>
      r <- step operator ;;
      if fst r then ret (snd r) else step_until_fixpoint fuel' (snd r)
  end.

Definition step_until_fixpoint_and_return {Op : Type} {HOp : Operator Op}
    (fuel : nat) (operator : Op) : M T StreamHandle :=
  operator' <- step_until_fixpoint fuel operator ;;
  ret (output_handle operator').

(** *** Delay *)

Record Delay : Type := mkDelay {
  Delay_input : StreamHandle;
  Delay_output : StreamHandle
}.

(** [UnaryOperator.__init__] with a stream and no output group: the input
    handle is resolved for its group, and the output is a new stream over
    that group. *)
Definition Delay_init (stream : StreamHandle) : M T Delay :=
  on_stream stream (reading (fun _ => tt)) ;;;
  output <- new_stream ;;
  ret (mkDelay stream output).

Definition Delay_step (self : Delay) : M T (bool * Delay) :=
  output_timestamp <- on_stream (Delay_output self) (reading get_current_time) ;;
  input_timestamp <- on_stream (Delay_input self) (reading get_current_time) ;;
  if output_timestamp <=? input_timestamp then
    x <- on_stream (Delay_input self) (getitem output_timestamp) ;;
    on_stream (Delay_output self) (writing (send x)) ;;;
    ret (false, self)
  else ret (true, self).

#[export] Instance Delay_Operator : Operator Delay :=
  {| step := Delay_step; output_handle := Delay_output |}.

(** *** Lift1

    The store holds the streams of one value type, so the lifted function
    maps [T] to [T]; it is arbitrary otherwise. *)

Record Lift1 : Type := mkLift1 {
  Lift1_input : StreamHandle;
  Lift1_output : StreamHandle;
  f1 : T -> T;
  frontier : Z
}.

Definition Lift1_init (stream : StreamHandle) (f1 : T -> T) : M T Lift1 :=
  on_stream stream (reading (fun _ => tt)) ;;;
  output <- new_stream ;;
  ret (mkLift1 stream output f1 0).

Definition Lift1_step (self : Lift1) : M T (bool * Lift1) :=
  output_timestamp <- on_stream (Lift1_output self) (reading get_current_time) ;;
  input_timestamp <- on_stream (Lift1_input self) (reading get_current_time) ;;
  let join := Z.max (Z.max input_timestamp output_timestamp) (frontier self) in
  let meet := Z.min (Z.min input_timestamp output_timestamp) (frontier self) in
  if decide (join = meet) then ret (true, self)
  else
    let next_frontier := frontier self + 1 in
    x <- on_stream (Lift1_input self) (getitem next_frontier) ;;
    on_stream (Lift1_output self) (writing (send (f1 self x))) ;;;
    ret (false, mkLift1 (Lift1_input self) (Lift1_output self) (f1 self)
                        next_frontier).

#[export] Instance Lift1_Operator : Operator Lift1 :=
  {| step := Lift1_step; output_handle := Lift1_output |}.

(** *** Lift2 *)

Record Lift2 : Type := mkLift2 {
  Lift2_input_a : StreamHandle;
  Lift2_input_b : option StreamHandle;   (* [None]: not bound yet *)
  Lift2_output : StreamHandle;
  f2 : T -> T -> T;
  frontier_a : Z;
  frontier_b : Z
}.

(** [BinaryOperator.__init__] with a first stream and no output group:
    [set_input_a] makes the output; the second stream may come later. *)
Definition Lift2_init (stream_a : StreamHandle)
    (stream_b : option StreamHandle) (f2 : T -> T -> T) : M T Lift2 :=
  on_stream stream_a (reading (fun _ => tt)) ;;;
  output <- new_stream ;;
  ret (mkLift2 stream_a stream_b output f2 0 0).

Definition set_input_b (stream_handle_b : StreamHandle) (self : Lift2)
  : Lift2 :=
  mkLift2 (Lift2_input_a self) (Some stream_handle_b) (Lift2_output self)
          (f2 self) (frontier_a self) (frontier_b self).

(** [self.input_b()]: the attribute must be bound. *)
Definition input_b (self : Lift2) : M T StreamHandle :=
  match Lift2_input_b self with
  | Some h => ret h
  | None => raise AttributeError
  end.

Definition max5 (a b c d e : Z) : Z :=
  Z.max (Z.max (Z.max (Z.max a b) c) d) e.

Definition min5 (a b c d e : Z) : Z :=
  Z.min (Z.min (Z.min (Z.min a b) c) d) e.

Definition Lift2_step (self : Lift2) : M T (bool * Lift2) :=
  a_timestamp <- on_stream (Lift2_input_a self) (reading get_current_time) ;;
  hb <- input_b self ;;
  b_timestamp <- on_stream hb (reading get_current_time) ;;
  output_timestamp <- on_stream (Lift2_output self) (reading get_current_time) ;;
  let join := max5 a_timestamp b_timestamp output_timestamp
                   (frontier_a self) (frontier_b self) in
  let meet := min5 a_timestamp b_timestamp output_timestamp
                   (frontier_a self) (frontier_b self) in
  if decide (join = meet) then ret (true, self)
  else
    let next_frontier_a := frontier_a self + 1 in
    let next_frontier_b := frontier_b self + 1 in
    a <- on_stream (Lift2_input_a self) (getitem next_frontier_a) ;;
    b <- on_stream hb (getitem next_frontier_b) ;;
    let application := f2 self a b in
    on_stream (Lift2_output self) (writing (send application)) ;;;
    ret (false, mkLift2 (Lift2_input_a self) (Lift2_input_b self)
                        (Lift2_output self) (f2 self)
                        next_frontier_a next_frontier_b).

#[export] Instance Lift2_Operator : Operator Lift2 :=
  {| step := Lift2_step; output_handle := Lift2_output |}.

(** [LiftedGroupAdd] and [LiftedGroupNegate]: the lifted function is the
    group operation of the first stream. *)
Definition LiftedGroupAdd_init (stream_a : StreamHandle)
    (stream_b : option StreamHandle) : M T Lift2 :=
  Lift2_init stream_a stream_b (fun x y => Group.add x y).

Definition LiftedGroupNegate_init (stream : StreamHandle) : M T Lift1 :=
  Lift1_init stream (fun x => Group.neg x).

(** *** Differentiate *)

Record Differentiate : Type := mkDifferentiate {
  Differentiate_input : StreamHandle;
  Differentiate_delayed_stream : Delay;
  delayed_negated_stream : Lift1;
  differentiation_stream : Lift2
}.

Definition Differentiate_init (stream : StreamHandle) : M T Differentiate :=
  delayed <- Delay_init stream ;;
  negated <- LiftedGroupNegate_init (output_handle delayed) ;;
  differentiation <-
    LiftedGroupAdd_init stream (Some (output_handle negated)) ;;
  ret (mkDifferentiate stream delayed negated differentiation).

Definition Differentiate_output (self : Differentiate) : StreamHandle :=
  output_handle (differentiation_stream self).

Definition Differentiate_step (self : Differentiate)
  : M T (bool * Differentiate) :=
  r1 <- step (Differentiate_delayed_stream self) ;;
  r2 <- step (delayed_negated_stream self) ;;
  r3 <- step (differentiation_stream self) ;;
  let self' :=
    mkDifferentiate (Differentiate_input self) (snd r1) (snd r2) (snd r3) in
  output_timestamp <-
    on_stream (Differentiate_output self') (reading get_current_time) ;;
  input_timestamp <-
    on_stream (Differentiate_input self') (reading get_current_time) ;;
  ret (output_timestamp =? input_timestamp, self').

#[export] Instance Differentiate_Operator : Operator Differentiate :=
  {| step := Differentiate_step; output_handle := Differentiate_output |}.

(** *** Integrate *)

Record Integrate : Type := mkIntegrate {
  Integrate_input : StreamHandle;
  integration_stream : Lift2;
  Integrate_delayed_stream : Delay
}.

(** The adder is made without a second input, the delay reads the adder's
    output, and the delay's output is then bound as the second input. *)
Definition Integrate_init (stream : StreamHandle) : M T Integrate :=
  integration <- LiftedGroupAdd_init stream None ;;
  delayed <- Delay_init (output_handle integration) ;;
  ret (mkIntegrate stream
         (set_input_b (output_handle delayed) integration) delayed).

Definition Integrate_output (self : Integrate) : StreamHandle :=
  output_handle (integration_stream self).

Definition Integrate_step (self : Integrate) : M T (bool * Integrate) :=
  r1 <- step (Integrate_delayed_stream self) ;;
  r2 <- step (integration_stream self) ;;
  let self' := mkIntegrate (Integrate_input self) (snd r2) (snd r1) in
  output_timestamp <-
    on_stream (Integrate_output self') (reading get_current_time) ;;
  input_timestamp <-
    on_stream (Integrate_input self') (reading get_current_time) ;;
  ret (output_timestamp =? input_timestamp, self').

#[export] Instance Integrate_Operator : Operator Integrate :=
  {| step := Integrate_step; output_handle := Integrate_output |}.

(** [step_until_fixpoint_set_new_default_then_return], for an [Integrate]
    or a [Delay]. *)
Definition step_until_fixpoint_set_new_default_then_return
    {Op : Type} {HOp : Operator Op} (fuel : nat) (operator : Op)
  : M T StreamHandle :=
  operator' <- step_until_fixpoint fuel operator ;;
  let out := output_handle operator' in
  latest_value <- on_stream out latest ;;
  on_stream out (writing (set_default latest_value)) ;;;
  ret out.

(** *** StreamAddition *)

(** [out.default = d] *)
Definition assign_default (d : T) (self : Stream T) : Stream T :=
  mkStream (timestamp self) (inner self) (identity self) d
           (default_changes self).

Definition StreamAddition_add (fuel : nat) (a b : StreamHandle)
  : M T StreamHandle :=
  lifted_group_add <- LiftedGroupAdd_init a (Some b) ;;
  out <- step_until_fixpoint_and_return fuel lifted_group_add ;;
  a_identity <- on_stream a (reading is_identity_stream) ;;
  (if a_identity : bool then
     d <- on_stream b (reading default) ;;
     on_stream out (writing (assign_default d))
   else ret tt) ;;;
  b_identity <- on_stream b (reading is_identity_stream) ;;
  (if b_identity : bool then
     d <- on_stream a (reading default) ;;
     on_stream out (writing (assign_default d))
   else ret tt) ;;;
  ret out.
End operators.

(** ** The rest of StreamAddition *)

Section stream_addition.
Context {T : Type} `{EqDecision T} `{Group.AbelianGroupOperation T}.

(** [StreamAddition.neg]: a [LiftedGroupNegate] over the stream, drained. *)
Definition StreamAddition_neg (fuel : nat) (a : StreamHandle)
  : M T StreamHandle :=
  lifted_group_neg <- LiftedGroupNegate_init a ;;
  step_until_fixpoint_and_return fuel lifted_group_neg.

(** [StreamAddition.identity]: a new stream over the inner group. *)
Definition StreamAddition_identity : M T StreamHandle := new_stream.
End stream_addition.

(** ** The join of two Z-sets ([dbspy/zset/functions/bilinear.py])

    [join] reads its arguments through [items()] only, so they are given
    here as their lists of (value, weight) items.  The result below is the
    dictionary [output] as [join] hands it to [ZSet]; a Python [dict] keeps
    the order in which its keys were first set. *)

Section zset_join.
Context {A B C : Type} `{EqDecision C}.

(** [k in d] and [d[k]] *)
Fixpoint dict_get (k : C) (d : list (C * Z)) : option Z :=
  match d with
  | [] => None
  | (k', w) :: d' => if decide (k' = k) then Some w else dict_get k d'
  end.

(** [if k in d: d[k] += w else: d[k] = w] *)
Fixpoint dict_add (k : C) (w : Z) (d : list (C * Z)) : list (C * Z) :=
  match d with
  | [] => [(k, w)]
  | (k', w') :: d' =>
      if decide (k' = k) then (k', w' + w) :: d'
      else (k', w') :: dict_add k w d'
  end.

(** The inner loop, for one item of the left Z-set. *)
Definition join_right (p : A -> B -> bool) (f : A -> B -> C)
    (left_value : A) (left_weight : Z) (right_items : list (B * Z))
    (output : list (C * Z)) : list (C * Z) :=
  fold_left
    (fun output right_item =>
       let '(right_value, right_weight) := right_item in
       if negb (p left_value right_value) then output
       else
         let projected_value := f left_value right_value in
         let new_weight := left_weight * right_weight in
         dict_add projected_value new_weight output)
    right_items output.

Definition join (left_items : list (A * Z)) (right_items : list (B * Z))
    (p : A -> B -> bool) (f : A -> B -> C) : list (C * Z) :=
  fold_left
    (fun output left_item =>
       let '(left_value, left_weight) := left_item in
       join_right p f left_value left_weight right_items output)
    left_items [].
End zset_join.

(** ** Streams of streams

    [StreamAddition(group)] is an [AbelianGroupOperation] over [Stream[T]],
    so the classes above also run over streams whose elements are streams
    ([Stream(StreamAddition(group))]).  Such elements are objects, not
    values: [add] and [neg] run an operator over their operands, which
    makes a new stream and extends the operands it reads, and [!=] between
    two elements is [Stream.__eq__].  So the code is embedded once more for
    this instance, here over the integers:

    - the element streams live in a store of their own, and an element is
      the reference of an integer stream: what [inner], [default] and
      [default_changes] hold, and what [send] and [__getitem__] pass on;
    - the methods of a stream of streams take the reference of [self] and
      run in the monad [N] over both stores;
    - [fuel] bounds every [while] loop, those that [add] and [neg] run on the
      elements included. *)

Module StreamOfStreams.

Record Heap : Type := mkHeap {
  elements : Store Z;            (* the integer streams *)
  streams : Store StreamHandle   (* the streams of integer streams *)
}.

Definition N (A : Type) : Type := Heap -> outcome A * Heap.

Definition retN {A} (a : A) : N A := fun hp => (Ret a, hp).

Definition raiseN {A} (e : exn) : N A := fun hp => (Raise e, hp).

Definition out_of_fuel {A} : N A := fun hp => (OutOfFuel, hp).

Definition bindN {A B} (m : N A) (k : A -> N B) : N B :=
  fun hp =>
    match m hp with
    | (Ret a, hp') => k a hp'
    | (Raise e, hp') => (Raise e, hp')
    | (OutOfFuel, hp') => (OutOfFuel, hp')
    end.

Declare Scope nested_scope.
Delimit Scope nested_scope with nested.
Notation "x <- m ;; k" := (bindN m (fun x => k))
  (at level 100, m at next level, right associativity) : nested_scope.
Notation "m ;;; k" := (bindN m (fun _ => k))
  (at level 100, right associativity) : nested_scope.
Local Open Scope nested_scope.

(** Code over integer streams runs on the store of the elements. *)
Definition on_elements {A} (m : M Z A) : N A :=
  fun hp =>
    let '(r, st) := m (elements hp) in (r, mkHeap st (streams hp)).

(** Reading and assigning the fields of the stream behind a reference. *)
Definition get {A} (self : StreamHandle) (f : Stream StreamHandle -> A)
  : N A :=
  fun hp =>
    match streams hp !! self with
    | None => (Raise AttributeError, hp)
    | Some s => (Ret (f s), hp)
    end.

Definition set (self : StreamHandle)
    (f : Stream StreamHandle -> Stream StreamHandle) : N unit :=
  fun hp =>
    match streams hp !! self with
    | None => (Raise AttributeError, hp)
    | Some s => (Ret tt, mkHeap (elements hp) (<[self := f s]> (streams hp)))
    end.

(** A new object, with its fields as given. *)
Definition allocate (s : Stream StreamHandle) : N StreamHandle :=
  fun hp =>
    (Ret (length (streams hp)), mkHeap (elements hp) (streams hp ++ [s])).

(** The group of the elements, [StreamAddition(IntegerAddition)]. *)
Definition group_add (fuel : nat) (a b : StreamHandle) : N StreamHandle :=
  on_elements (StreamAddition_add (T := Z) fuel a b).

Definition group_neg (fuel : nat) (a : StreamHandle) : N StreamHandle :=
  on_elements (StreamAddition_neg (T := Z) fuel a).

Definition group_identity : N StreamHandle :=
  on_elements (StreamAddition_identity (T := Z)).

(** [x != y] on two elements: Python negates [Stream.__eq__]. *)
Definition element_ne (x y : StreamHandle) : N bool :=
  on_elements
    (sx <- on_stream x (reading (fun s : Stream Z => s)) ;;
     sy <- on_stream y (reading (fun s : Stream Z => s)) ;;
     ret (negb (Stream_eq sx sy)))%stream.


(** [send] *)
Definition send (element : StreamHandle) (self : StreamHandle) : N unit :=
  d <- get self default ;;
  differs <- element_ne element d ;;
  (if differs : bool then
     set self (fun s =>
       mkStream (timestamp s) (od_set (timestamp s + 1) element (inner s))
                false (default s) (default_changes s))
   else retN tt) ;;;
  set self (fun s =>
    mkStream (timestamp s + 1) (inner s) (identity s) (default s)
             (default_changes s)).

(** [Stream(StreamAddition(IntegerAddition))]: each call of
    [group_op.identity()] makes a new integer stream. *)
Definition Stream_init : N StreamHandle :=
  d <- group_identity ;;
  c <- group_identity ;;
  self <- allocate (mkStream (-1) [] true d [(0, c)]) ;;
  e <- group_identity ;;
  send e self ;;;
  retN self.

(** [while timestamp > self.get_current_time(): self.send(self.default)] *)
Fixpoint send_default_while (fuel : nat) (timestamp : Z)
    (self : StreamHandle) : N unit :=
  current <- get self get_current_time ;;
  if timestamp >? current then
    match fuel with
    | O => out_of_fuel
    | S fuel' =>
        d <- get self default ;;
        send d self ;;;
        send_default_while fuel' timestamp self
    end
  else retN tt.

(** [__getitem__]: what it returns is the reference that the stream holds. *)
Fixpoint getitem_rec (depth : nat) (timestamp : Z) (self : StreamHandle)
  : N StreamHandle :=
  if timestamp <? 0 then raiseN ValueError
  else
    current <- get self get_current_time ;;
    if timestamp <=? current then
      r <- get self (getitem_recorded timestamp) ;;
      match r with
      | Ret v => retN v
      | Raise e => raiseN e
      | OutOfFuel => out_of_fuel
      end
    else
      send_default_while (Z.to_nat (timestamp - current)) timestamp self ;;;
      match depth with
      | O => out_of_fuel
      | S depth' => getitem_rec depth' timestamp self
      end.

Definition getitem (timestamp : Z) (self : StreamHandle) : N StreamHandle :=
  getitem_rec 1 timestamp self.

(** [==] on two values of a dict: the same object, or [__eq__]. *)
Definition element_eq (x y : StreamHandle) : N bool :=
  if decide (x = y) then retN true
  else differs <- element_ne x y ;; retN (negb differs).

(** [dict.__eq__] after the test of the lengths: every key of the first is a
    key of the second, with an equal value. *)
Fixpoint dict_eq_items (a b : list (Z * StreamHandle)) : N bool :=
  match a with
  | [] => retN true
  | (k, va) :: a' =>
      match od_get k b with
      | None => retN false
      | Some vb =>
          same <- element_eq va vb ;;
          if same : bool then dict_eq_items a' b else retN false
      end
  end.

(** [OrderedDict.__eq__]: equal as dicts, and the keys in the same order. *)
Definition OrderedDict_eq (a b : list (Z * StreamHandle)) : N bool :=
  if negb (length a =? length b)%nat then retN false
  else
    same <- dict_eq_items a b ;;
    retN (same && bool_decide (map fst a = map fst b)).

(** [__eq__] on two streams of streams. *)
Definition Stream_eq (self other : StreamHandle) : N bool :=
  self_identity <- get self is_identity_stream ;;
  other_identity <- get other is_identity_stream ;;
  if self_identity && other_identity then retN true
  else
    self_timestamp <- get self get_current_time ;;
    other_timestamp <- get other get_current_time ;;
    if negb (self_timestamp =? other_timestamp) then retN false
    else
      a <- get self inner ;;
      b <- get other inner ;;
      OrderedDict_eq a b.

(** The operators, as above. *)
Class Operator (Op : Type) : Type := {
  step : Op -> N (bool * Op);
  output_handle : Op -> StreamHandle
}.

Fixpoint step_until_fixpoint {Op : Type} {HOp : Operator Op} (fuel : nat)
    (operator : Op) : N Op :=
  match fuel with
  | O => out_of_fuel
  | S fuel' =>
      r <- step operator ;;
      if fst r then retN (snd r) else step_until_fixpoint fuel' (snd r)
  end.

Definition step_until_fixpoint_and_return {Op : Type} {HOp : Operator Op}
    (fuel : nat) (operator : Op) : N StreamHandle :=
  operator' <- step_until_fixpoint fuel operator ;;
  retN (output_handle operator').

Definition Delay_init (stream : StreamHandle) : N Delay :=
  get stream (fun _ => tt) ;;;
  output <- Stream_init ;;
  retN (mkDelay stream output).

(** [Delay.step]: the output is sent the reference the input holds, so the
    two streams share the element. *)
Definition Delay_step (self : Delay) : N (bool * Delay) :=
  output_timestamp <- get (Delay_output self) get_current_time ;;
  input_timestamp <- get (Delay_input self) get_current_time ;;
  if output_timestamp <=? input_timestamp then
    x <- getitem output_timestamp (Delay_input self) ;;
    send x (Delay_output self) ;;;
    retN (false, self)
  else retN (true, self).

#[export] Instance Delay_Operator : Operator Delay :=
  {| step := Delay_step; output_handle := Delay_output |}.

(** [Lift1] and [Lift2]: the lifted function runs code on its arguments. *)
Record Lift1 : Type := mkLift1 {
  Lift1_input : StreamHandle;
  Lift1_output : StreamHandle;
  f1 : StreamHandle -> N StreamHandle;
  frontier : Z
}.

Definition Lift1_init (stream : StreamHandle)
    (f1 : StreamHandle -> N StreamHandle) : N Lift1 :=
  get stream (fun _ => tt) ;;;
  output <- Stream_init ;;
  retN (mkLift1 stream output f1 0).

Definition Lift1_step (self : Lift1) : N (bool * Lift1) :=
  output_timestamp <- get (Lift1_output self) get_current_time ;;
  input_timestamp <- get (Lift1_input self) get_current_time ;;
  let join := Z.max (Z.max input_timestamp output_timestamp) (frontier self) in
  let meet := Z.min (Z.min input_timestamp output_timestamp) (frontier self) in
  if decide (join = meet) then retN (true, self)
  else
    let next_frontier := frontier self + 1 in
    x <- getitem next_frontier (Lift1_input self) ;;
    y <- f1 self x ;;
    send y (Lift1_output self) ;;;
    retN (false, mkLift1 (Lift1_input self) (Lift1_output self) (f1 self)
                        next_frontier).

#[export] Instance Lift1_Operator : Operator Lift1 :=
  {| step := Lift1_step; output_handle := Lift1_output |}.

Record Lift2 : Type := mkLift2 {
  Lift2_input_a : StreamHandle;
  Lift2_input_b : option StreamHandle;
  Lift2_output : StreamHandle;
  f2 : StreamHandle -> StreamHandle -> N StreamHandle;
  frontier_a : Z;
  frontier_b : Z
}.

Definition Lift2_init (stream_a : StreamHandle)
    (stream_b : option StreamHandle)
    (f2 : StreamHandle -> StreamHandle -> N StreamHandle) : N Lift2 :=
  get stream_a (fun _ => tt) ;;;
  output <- Stream_init ;;
  retN (mkLift2 stream_a stream_b output f2 0 0).

Definition set_input_b (stream_handle_b : StreamHandle) (self : Lift2)
  : Lift2 :=
  mkLift2 (Lift2_input_a self) (Some stream_handle_b) (Lift2_output self)
          (f2 self) (frontier_a self) (frontier_b self).

Definition input_b (self : Lift2) : N StreamHandle :=
  match Lift2_input_b self with
  | Some h => retN h
  | None => raiseN AttributeError
  end.

Definition Lift2_step (self : Lift2) : N (bool * Lift2) :=
  a_timestamp <- get (Lift2_input_a self) get_current_time ;;
  hb <- input_b self ;;
  b_timestamp <- get hb get_current_time ;;
  output_timestamp <- get (Lift2_output self) get_current_time ;;
  let join := max5 a_timestamp b_timestamp output_timestamp
                   (frontier_a self) (frontier_b self) in
  let meet := min5 a_timestamp b_timestamp output_timestamp
                   (frontier_a self) (frontier_b self) in
  if decide (join = meet) then retN (true, self)
  else
    let next_frontier_a := frontier_a self + 1 in
    let next_frontier_b := frontier_b self + 1 in
    a <- getitem next_frontier_a (Lift2_input_a self) ;;
    b <- getitem next_frontier_b hb ;;
    application <- f2 self a b ;;
    send application (Lift2_output self) ;;;
    retN (false, mkLift2 (Lift2_input_a self) (Lift2_input_b self)
                        (Lift2_output self) (f2 self)
                        next_frontier_a next_frontier_b).

#[export] Instance Lift2_Operator : Operator Lift2 :=
  {| step := Lift2_step; output_handle := Lift2_output |}.

(** [LiftedGroupAdd] and [LiftedGroupNegate]: the lifted function is
    [StreamAddition.add] or [StreamAddition.neg], on the elements. *)
Definition LiftedGroupAdd_init (fuel : nat) (stream_a : StreamHandle)
    (stream_b : option StreamHandle) : N Lift2 :=
  Lift2_init stream_a stream_b (fun x y => group_add fuel x y).

Definition LiftedGroupNegate_init (fuel : nat) (stream : StreamHandle)
  : N Lift1 :=
  Lift1_init stream (fun x => group_neg fuel x).

Record Differentiate : Type := mkDifferentiate {
  Differentiate_input : StreamHandle;
  Differentiate_delayed_stream : Delay;
  delayed_negated_stream : Lift1;
  differentiation_stream : Lift2
}.

Definition Differentiate_init (fuel : nat) (stream : StreamHandle)
  : N Differentiate :=
  delayed <- Delay_init stream ;;
  negated <- LiftedGroupNegate_init fuel (output_handle delayed) ;;
  differentiation <-
    LiftedGroupAdd_init fuel stream (Some (output_handle negated)) ;;
  retN (mkDifferentiate stream delayed negated differentiation).

Definition Differentiate_output (self : Differentiate) : StreamHandle :=
  output_handle (differentiation_stream self).

Definition Differentiate_step (self : Differentiate)
  : N (bool * Differentiate) :=
  r1 <- step (Differentiate_delayed_stream self) ;;
  r2 <- step (delayed_negated_stream self) ;;
  r3 <- step (differentiation_stream self) ;;
  let self' :=
    mkDifferentiate (Differentiate_input self) (snd r1) (snd r2) (snd r3) in
  output_timestamp <- get (Differentiate_output self') get_current_time ;;
  input_timestamp <- get (Differentiate_input self') get_current_time ;;
  retN (output_timestamp =? input_timestamp, self').

#[export] Instance Differentiate_Operator : Operator Differentiate :=
  {| step := Differentiate_step; output_handle := Differentiate_output |}.

Record Integrate : Type := mkIntegrate {
  Integrate_input : StreamHandle;
  integration_stream : Lift2;
  Integrate_delayed_stream : Delay
}.

Definition Integrate_init (fuel : nat) (stream : StreamHandle)
  : N Integrate :=
  integration <- LiftedGroupAdd_init fuel stream None ;;
  delayed <- Delay_init (output_handle integration) ;;
  retN (mkIntegrate stream
         (set_input_b (output_handle delayed) integration) delayed).

Definition Integrate_output (self : Integrate) : StreamHandle :=
  output_handle (integration_stream self).

Definition Integrate_step (self : Integrate) : N (bool * Integrate) :=
  r1 <- step (Integrate_delayed_stream self) ;;
  r2 <- step (integration_stream self) ;;
  let self' := mkIntegrate (Integrate_input self) (snd r2) (snd r1) in
  output_timestamp <- get (Integrate_output self') get_current_time ;;
  input_timestamp <- get (Integrate_input self') get_current_time ;;
  retN (output_timestamp =? input_timestamp, self').

#[export] Instance Integrate_Operator : Operator Integrate :=
  {| step := Integrate_step; output_handle := Integrate_output |}.

(** Differentiate the stream of streams behind [s] to fixpoint, then
    integrate the result to fixpoint. *)
Definition Integrate_of_Differentiate (fuel : nat) (s : StreamHandle)
  : N StreamHandle :=
  d <- Differentiate_init fuel s ;;
  differentiated <- step_until_fixpoint_and_return fuel d ;;
  i <- Integrate_init fuel differentiated ;;
  step_until_fixpoint_and_return fuel i.

(** Integrate first, then differentiate the result. *)
Definition Differentiate_of_Integrate (fuel : nat) (s : StreamHandle)
  : N StreamHandle :=
  i <- Integrate_init fuel s ;;
  integrated <- step_until_fixpoint_and_return fuel i ;;
  d <- Differentiate_init fuel integrated ;;
  step_until_fixpoint_and_return fuel d.



End StreamOfStreams.

(** ** Vocabulary of the properties *)

Section vocabulary.
Context {T : Type} `{EqDecision T} `{Group.AbelianGroupOperation T}.

(** The stream a caller gets from the constructor and the given sends. *)
Definition sent (l : list T) : Stream T :=
  fold_left (fun s v => send v s) l Stream_init.

(** The streams that the constructor and [send] can produce. *)
Inductive reachable : Stream T -> Prop :=
| reachable_init : reachable Stream_init
| reachable_send v s : reachable s -> reachable (send v s).

(** The value a stream holds at a timestamp: the recorded one, or the
    identity the stream was made with. *)
Definition recorded (self : Stream T) (t : Z) : T :=
  match od_get t (inner self) with
  | Some v => v
  | None => Group.identity
  end.

(** The same stream with the cursor moved forward to [t]. *)
Definition advance (t : Z) (self : Stream T) : Stream T :=
  mkStream (Z.max (timestamp self) t) (inner self) (identity self)
           (default self) (default_changes self).

(** The values of [sent l], timestamp 0 included, and beyond the cursor. *)
Definition value_at (l : list T) (t : nat) : T :=
  nth t (Group.identity :: l) Group.identity.

(** [l] followed by identities up to length [n]. *)
Definition pad (l : list T) (n : nat) : list T :=
  l ++ repeat Group.identity (n - length l).

(** The values of a stream as a sequence indexed by timestamp. *)
Definition values (self : Stream T) (t : nat) : T := recorded self (Z.of_nat t).


(** What [Integrate] sends at timestamp [t]: the input there plus what it
    sent at [t - 1]; the output holds the identity at 0. *)
Fixpoint integral (x : nat -> T) (t : nat) : T :=
  match t with
  | O => Group.identity
  | S t' => Group.add (x t) (integral x t')
  end.

(** What [Differentiate] sends at timestamp [t]. *)
Definition difference (x : nat -> T) (t : nat) : T :=
  Group.add (x t) (Group.neg (x (Nat.pred t))).

Definition all_default (l : list T) : bool :=
  forallb (fun v => bool_decide (v = Group.identity)) l.
End vocabulary.

(** ** Vocabulary of the operator properties *)

Section operator_vocabulary.
Context {T : Type} `{EqDecision T} `{Group.AbelianGroupOperation T}.

(** The functions that [LiftedGroupAdd] and [LiftedGroupNegate] lift. *)
Definition group_add : T -> T -> T := fun x y => Group.add x y.

Definition group_neg : T -> T := fun x => Group.neg x.

(** The pipelines of the round trip. *)

(** Differentiate the stream behind [s] to fixpoint, then integrate the
    result to fixpoint. *)
Definition Integrate_of_Differentiate (fuel : nat) (s : StreamHandle)
  : M T StreamHandle :=
  d <- Differentiate_init s ;;
  differentiated <- step_until_fixpoint_and_return fuel d ;;
  i <- Integrate_init differentiated ;;
  step_until_fixpoint_and_return fuel i.

(** Integrate first, then differentiate the result. *)
Definition Differentiate_of_Integrate (fuel : nat) (s : StreamHandle)
  : M T StreamHandle :=
  i <- Integrate_init s ;;
  integrated <- step_until_fixpoint_and_return fuel i ;;
  d <- Differentiate_init integrated ;;
  step_until_fixpoint_and_return fuel d.

(** The number of steps a drained [Integrate] or [Differentiate] takes over
    an input with the given cursor: one for each timestamp, and one all the
    same when the cursor is 0. *)
Definition rounds (cursor : Z) : nat := Nat.max (Z.to_nat cursor) 1.

(** *** The operators after [k] steps, and what their streams then hold

    The streams are named by their handles: [hi] the input, [ho] the output
    of the operator, [hd] and [hn] the outputs of an inner delay and
    negation.  [st0] is the store the operator started from; the streams at
    other handles stay as they are in it. *)

Definition Delay_inv (hi ho : StreamHandle) (si : Stream T)
    (k : nat) (op : Delay) (st : Store T) : Prop :=
  op = mkDelay hi ho
  /\ st !! hi = Some si
  /\ st !! ho = Some (sent (map (values si) (seq 0 k))).

(** The [Integrate] over [hi] with adder output [ho] and delay output [hd],
    after [k] steps. *)
Definition Integrate_at (hi ho hd : StreamHandle) (k : nat) : Integrate :=
  mkIntegrate hi
    (mkLift2 hi (Some hd) ho group_add (Z.of_nat k) (Z.of_nat k))
    (mkDelay ho hd).

Definition Integrate_inv (hi ho hd : StreamHandle) (si : Stream T)
    (st0 : Store T) (k : nat) (op : Integrate) (st : Store T) : Prop :=
  op = Integrate_at hi ho hd k
  /\ st !! hi = Some (advance (Z.of_nat k) si)
  /\ st !! hd = Some (sent (map (integral (values si)) (seq 0 k)))
  /\ st !! ho = Some (sent (map (integral (values si)) (seq 1 k)))
  /\ forall h, h <> hi -> h <> ho -> h <> hd -> st !! h = st0 !! h.

(** The [Differentiate] over [hi] with delay output [hd], negation output
    [hn] and adder output [ho], after [k] steps. *)
Definition Differentiate_at (hi hd hn ho : StreamHandle) (k : nat)
  : Differentiate :=
  mkDifferentiate hi (mkDelay hi hd)
    (mkLift1 hd hn group_neg (Z.of_nat k))
    (mkLift2 hi (Some hn) ho group_add (Z.of_nat k) (Z.of_nat k)).

Definition Differentiate_inv (hi hd hn ho : StreamHandle) (si : Stream T)
    (st0 : Store T) (k : nat) (op : Differentiate) (st : Store T) : Prop :=
  op = Differentiate_at hi hd hn ho k
  /\ st !! hi = Some (advance (Z.of_nat k) si)
  /\ st !! hd = Some (sent (map (values si) (seq 0 k)))
  /\ st !! hn = Some (sent (map (fun j => group_neg (values si j)) (seq 0 k)))
  /\ st !! ho = Some (sent (map (difference (values si)) (seq 1 k)))
  /\ forall h, h <> hi -> h <> hd -> h <> hn -> h <> ho ->
       st !! h = st0 !! h.

(** The adder of [StreamAddition.add] after [k] steps. *)
Definition LiftedGroupAdd_at (ha hb ho : StreamHandle) (k : nat) : Lift2 :=
  mkLift2 ha (Some hb) ho group_add (Z.of_nat k) (Z.of_nat k).

Definition pointwise_sum (sa sb : Stream T) (j : nat) : T :=
  group_add (values sa j) (values sb j).

Definition LiftedGroupAdd_inv (ha hb ho : StreamHandle) (sa sb : Stream T)
    (k : nat) (op : Lift2) (st : Store T) : Prop :=
  op = LiftedGroupAdd_at ha hb ho k
  /\ st !! ha = Some (advance (Z.of_nat k) sa)
  /\ st !! hb = Some (advance (Z.of_nat k) sb)
  /\ st !! ho = Some (sent (map (pointwise_sum sa sb) (seq 1 k))).
End operator_vocabulary.

(** ** Vocabulary of the further properties *)

Section further_vocabulary.
Context {T : Type} `{EqDecision T} `{Group.AbelianGroupOperation T}.

(** The keys of an [inner] dictionary increase strictly and lie in
    [lo + 1 .. hi]; no value is the identity. *)
Fixpoint compressed (lo hi : Z) (d : list (Z * T)) : Prop :=
  match d with
  | [] => True
  | (k, v) :: d' =>
      lo < k <= hi /\ v <> Group.identity /\ compressed k hi d'
  end.

(** The [Lift1] over [hi] with output [ho] and function [f], after [k]
    steps, and what its streams then hold. *)
Definition Lift1_at (hi ho : StreamHandle) (f : T -> T) (k : nat) : Lift1 :=
  mkLift1 hi ho f (Z.of_nat k).

Definition Lift1_inv (hi ho : StreamHandle) (f : T -> T) (si : Stream T)
    (k : nat) (op : Lift1) (st : Store T) : Prop :=
  op = Lift1_at hi ho f k
  /\ st !! hi = Some si
  /\ st !! ho = Some (sent (map (fun j => f (values si j)) (seq 1 k))).

(** [add(a, neg(a))] and [add(a, identity())] as a caller writes them. *)
Definition add_neg_pipeline (fuel : nat) (a : StreamHandle)
  : M T StreamHandle :=
  negated <- StreamAddition_neg fuel a ;;
  StreamAddition_add fuel a negated.

Definition add_identity_pipeline (fuel : nat) (a : StreamHandle)
  : M T StreamHandle :=
  zero <- StreamAddition_identity ;;
  StreamAddition_add fuel a zero.

Definition neg_neg_pipeline (fuel : nat) (a : StreamHandle)
  : M T StreamHandle :=
  negated <- StreamAddition_neg fuel a ;;
  StreamAddition_neg fuel negated.

(** A [Delay] over the output of a drained [Delay]. *)
Definition Delay_of_Delay (fuel : nat) (s : StreamHandle)
  : M T StreamHandle :=
  d1 <- Delay_init s ;;
  once <- step_until_fixpoint_and_return fuel d1 ;;
  d2 <- Delay_init once ;;
  step_until_fixpoint_and_return fuel d2.
End further_vocabulary.

Section join_vocabulary.
Context {A B C : Type} `{EqDecision C}.

(** The weights that the pairs of items matching [p] and projected to [k]
    contribute, in the order of the two loops. *)
Definition contributions (left_items : list (A * Z))
    (right_items : list (B * Z)) (p : A -> B -> bool) (f : A -> B -> C)
    (k : C) : list Z :=
  flat_map
    (fun l =>
       flat_map
         (fun r =>
            if p (fst l) (fst r) && bool_decide (f (fst l) (fst r) = k)
            then [snd l * snd r] else [])
         right_items)
    left_items.

Definition total (ws : list Z) : Z := fold_right Z.add 0 ws.

(** A weight added to what the dictionary holds for a key, if anything. *)
Definition add_weight (o : option Z) (w : Z) : option Z :=
  Some (match o with Some x => x + w | None => w end).

(** Every weight multiplied by [c]. *)
Definition scale_left (c : Z) (L : list (A * Z)) : list (A * Z) :=
  map (fun l => (fst l, c * snd l)) L.

Definition scale_dict (c : Z) (d : list (C * Z)) : list (C * Z) :=
  map (fun e => (fst e, c * snd e)) d.
End join_vocabulary.

(** * Properties *)

(** ** Ordered dictionaries *)

Section ordered_dict_facts.
Context {V : Type}.
Implicit Types (d : list (Z * V)) (k : Z).

Lemma od_get_set_eq d k v : od_get k (od_set k v d) = Some v.
Proof.
  induction d as [|[k' v'] d IH]; simpl.
  - now rewrite decide_True.
  - destruct (decide (k' = k)) as [->|Hne]; simpl.
    + now rewrite decide_True.
    + now rewrite decide_False.
Qed.

Lemma od_get_set_ne d k k' v :
  k <> k' -> od_get k' (od_set k v d) = od_get k' d.
Proof.
  intros Hne. induction d as [|[k0 v0] d IH]; simpl.
  - now rewrite decide_False.
  - destruct (decide (k0 = k)) as [->|Hne0]; simpl.
    + now rewrite !decide_False.
    + destruct (decide (k0 = k')); auto.
Qed.

End ordered_dict_facts.

(** ** Streams *)

Section stream_facts.
Context {T : Type} `{EqDecision T} `{Group.AbelianGroupOperation T}.
Implicit Types (l : list T) (s : Stream T) (v : T) (t : nat).

Lemma sent_snoc l v : sent (l ++ [v]) = send v (sent l).
Proof. unfold sent. now rewrite fold_left_app. Qed.

Lemma reachable_sent l : reachable (sent l).
Proof.
  induction l as [|v l IH] using rev_ind.
  - constructor.
  - rewrite sent_snoc. now constructor.
Qed.

Lemma reachable_inv s : reachable s -> exists l, s = sent l.
Proof.
  induction 1 as [|v s _ [l ->]].
  - now exists [].
  - exists (l ++ [v]). now rewrite sent_snoc.
Qed.

Lemma timestamp_send v s : timestamp (send v s) = timestamp s + 1.
Proof. unfold send. now destruct (decide _). Qed.

Lemma default_send v s : default (send v s) = default s.
Proof. unfold send. now destruct (decide _). Qed.

Lemma default_changes_send v s :
  default_changes (send v s) = default_changes s.
Proof. unfold send. now destruct (decide _). Qed.

Lemma timestamp_sent l : timestamp (sent l) = Z.of_nat (length l).
Proof.
  induction l as [|v l IH] using rev_ind.
  - unfold sent, Stream_init, send; simpl. now destruct (decide _).
  - rewrite sent_snoc, timestamp_send, IH, length_app. simpl. lia.
Qed.

Lemma default_sent l : default (sent l) = Group.identity.
Proof.
  induction l as [|v l IH] using rev_ind.
  - unfold sent, Stream_init, send; simpl. now destruct (decide _).
  - now rewrite sent_snoc, default_send.
Qed.

Lemma default_changes_sent l :
  default_changes (sent l) = [(0, Group.identity)].
Proof.
  induction l as [|v l IH] using rev_ind.
  - unfold sent, Stream_init, send; simpl. now destruct (decide _).
  - now rewrite sent_snoc, default_changes_send.
Qed.

Lemma inner_init : inner (Stream_init (T := T)) = [].
Proof. unfold Stream_init, send; simpl. now rewrite decide_True. Qed.

Lemma identity_init : identity (Stream_init (T := T)) = true.
Proof. unfold Stream_init, send; simpl. now rewrite decide_True. Qed.

(** Sending the default moves the cursor and nothing else. *)
Lemma send_default s : send (default s) s = advance (timestamp s + 1) s.
Proof.
  unfold send, advance. rewrite decide_True by reflexivity.
  f_equal. lia.
Qed.

(** No timestamp outside [1..cursor] is recorded. *)
Lemma inner_sent_outside l (k : Z) :
  k <= 0 \/ Z.of_nat (length l) < k -> od_get k (inner (sent l)) = None.
Proof.
  induction l as [|v l IH] using rev_ind; intros Hk.
  - change (sent []) with (Stream_init (T := T)). now rewrite inner_init.
  - rewrite sent_snoc. rewrite length_app in Hk; simpl in Hk.
    unfold send. destruct (decide _); simpl.
    + apply IH. lia.
    + rewrite od_get_set_ne by (rewrite timestamp_sent; lia).
      apply IH. lia.
Qed.

Lemma value_at_snoc_last l v : value_at (l ++ [v]) (S (length l)) = v.
Proof.
  unfold value_at. simpl.
  rewrite app_nth2 by lia. now rewrite Nat.sub_diag.
Qed.

Lemma value_at_snoc_other l v t :
  t <> S (length l) -> value_at (l ++ [v]) t = value_at l t.
Proof.
  intros Ht. unfold value_at. destruct t as [|t]; simpl; auto.
  destruct (Nat.lt_ge_cases t (length l)).
  - now rewrite app_nth1.
  - rewrite !nth_overflow; auto; rewrite ?length_app; simpl; lia.
Qed.

Lemma recorded_send_last l v :
  recorded (send v (sent l)) (Z.of_nat (S (length l))) = v.
Proof.
  unfold recorded, send. rewrite default_sent, timestamp_sent.
  destruct (decide _) as [->|Hne]; simpl.
  - rewrite inner_sent_outside by lia. reflexivity.
  - replace (Z.of_nat (length l) + 1) with (Z.of_nat (S (length l))) by lia.
    now rewrite od_get_set_eq.
Qed.

Lemma recorded_send_other l v (k : Z) :
  k <> Z.of_nat (S (length l)) ->
  recorded (send v (sent l)) k = recorded (sent l) k.
Proof.
  intros Hk. unfold recorded, send. rewrite timestamp_sent.
  destruct (decide _); simpl; auto.
  rewrite od_get_set_ne by lia. reflexivity.
Qed.

Lemma recorded_sent l t : recorded (sent l) (Z.of_nat t) = value_at l t.
Proof.
  revert t. induction l as [|v l IH] using rev_ind; intros t.
  - change (sent []) with (Stream_init (T := T)).
    unfold recorded. rewrite inner_init. simpl.
    unfold value_at. destruct t as [|[|t]]; reflexivity.
  - rewrite sent_snoc. destruct (decide (t = S (length l))) as [->|Hne].
    + now rewrite recorded_send_last, value_at_snoc_last.
    + rewrite recorded_send_other by lia.
      now rewrite value_at_snoc_other, IH.
Qed.

Lemma advance_advance (t t' : Z) s :
  advance t (advance t' s) = advance (Z.max t' t) s.
Proof. unfold advance; simpl. f_equal. lia. Qed.

Lemma advance_below (t : Z) s : t <= timestamp s -> advance t s = s.
Proof. intros Ht. destruct s; unfold advance; simpl in *. f_equal. lia. Qed.

Lemma send_default_while_advance (n : nat) (t : Z) s :
  t - timestamp s = Z.of_nat n ->
  send_default_while n t s = Some (advance t s).
Proof.
  revert s. induction n as [|n IH]; intros s Hn; simpl;
    unfold get_current_time.
  - destruct (Z.gtb_spec t (timestamp s)); [lia|].
    now rewrite advance_below by lia.
  - destruct (Z.gtb_spec t (timestamp s)); [|lia].
    rewrite send_default, IH by (simpl; lia).
    rewrite advance_advance. do 2 f_equal. lia.
Qed.

Lemma max_below_zero (t : Z) : max_below [0] t = 0.
Proof. unfold max_below; simpl. now destruct (0 <? t). Qed.

Lemma getitem_recorded_plain (t : Z) s :
  default_changes s = [(0, Group.identity)] ->
  getitem_recorded t s = Ret (recorded s t).
Proof.
  intros Hdc. unfold getitem_recorded, recorded. rewrite Hdc; simpl.
  rewrite max_below_zero. now rewrite decide_True.
Qed.

(** A read at a timestamp that is not negative returns the value held
    there and moves the cursor up to the timestamp. *)
Lemma getitem_plain (t : Z) s :
  default_changes s = [(0, Group.identity)] -> 0 <= t ->
  getitem t s = (Ret (recorded s t), advance t s).
Proof.
  intros Hdc Ht. unfold getitem; simpl. unfold get_current_time.
  destruct (Z.ltb_spec t 0); [lia|].
  destruct (Z.leb_spec t (timestamp s)).
  - now rewrite getitem_recorded_plain, advance_below.
  - rewrite (send_default_while_advance _ t s) by lia.
    destruct (Z.ltb_spec t 0); [lia|]. simpl.
    destruct (Z.leb_spec t (Z.max (timestamp s) t)); [|lia].
    now rewrite getitem_recorded_plain.
Qed.

Lemma getitem_reachable (t : Z) s :
  reachable s -> 0 <= t -> getitem t s = (Ret (recorded s t), advance t s).
Proof.
  intros [l ->]%reachable_inv. apply getitem_plain, default_changes_sent.
Qed.

Lemma getitem_negative (t : Z) s :
  t < 0 -> getitem t s = (Raise ValueError, s).
Proof.
  intros Ht. unfold getitem; simpl.
  now destruct (Z.ltb_spec t 0); [|lia].
Qed.

(** [__getitem__] never needs more than its one recursive call. *)
Lemma getitem_returns (t : Z) s : fst (getitem t s) <> OutOfFuel.
Proof.
  unfold getitem; simpl. unfold get_current_time.
  destruct (Z.ltb_spec t 0); [discriminate|].
  destruct (Z.leb_spec t (timestamp s)).
  - simpl. unfold getitem_recorded. now destruct (od_get _ _).
  - rewrite (send_default_while_advance _ t s) by lia.
    destruct (Z.ltb_spec t 0); [lia|]. simpl.
    destruct (Z.leb_spec t (Z.max (timestamp s) t)); [|lia].
    simpl. unfold getitem_recorded. now destruct (od_get _ _).
Qed.

Lemma repeat_snoc {A} (x : A) (n : nat) : repeat x (S n) = repeat x n ++ [x].
Proof. induction n as [|n IH]; simpl in *; congruence. Qed.

Lemma advance_sent l t : advance (Z.of_nat t) (sent l) = sent (pad l t).
Proof.
  unfold pad. destruct (Nat.le_gt_cases t (length l)) as [Hle|Hgt].
  - replace (t - length l)%nat with 0%nat by lia. simpl.
    rewrite app_nil_r. apply advance_below. rewrite timestamp_sent. lia.
  - replace t with (length l + (t - length l))%nat at 1 by lia.
    generalize (t - length l)%nat as n. clear. intros n.
    induction n as [|n IH].
    + simpl. rewrite app_nil_r, Nat.add_0_r.
      apply advance_below. rewrite timestamp_sent. lia.
    + rewrite repeat_snoc, app_assoc, sent_snoc, <- IH.
      pose proof (default_sent l) as Hd.
      change (default (sent l)) with
        (default (advance (Z.of_nat (length l + n)) (sent l))) in Hd.
      rewrite <- Hd, send_default, advance_advance. simpl.
      f_equal. rewrite timestamp_sent. lia.
Qed.

Lemma value_at_pad l n t : value_at (pad l n) t = value_at l t.
Proof.
  unfold value_at, pad. destruct t as [|t]; simpl; auto.
  destruct (Nat.lt_ge_cases t (length l)).
  - now rewrite app_nth1.
  - rewrite app_nth2 by lia. rewrite (nth_overflow l) by lia.
    destruct (Nat.lt_ge_cases (t - length l) (n - length l)).
    + now rewrite nth_repeat_lt.
    + apply nth_overflow. rewrite repeat_length. lia.
Qed.

Lemma length_pad l n : length (pad l n) = Nat.max (length l) n.
Proof. unfold pad. rewrite length_app, repeat_length. lia. Qed.

Lemma identity_send v s :
  identity (send v s) = identity s && bool_decide (v = default s).
Proof.
  unfold send. destruct (decide _); simpl.
  - rewrite bool_decide_eq_true_2 by assumption. now rewrite andb_true_r.
  - rewrite bool_decide_eq_false_2 by assumption. now rewrite andb_false_r.
Qed.

(** The flag [identity] is true exactly as long as nothing but the
    default was sent. *)
Lemma identity_sent l : identity (sent l) = all_default l.
Proof.
  induction l as [|v l IH] using rev_ind.
  - apply identity_init.
  - rewrite sent_snoc, identity_send, IH, default_sent.
    unfold all_default. rewrite forallb_app. simpl.
    now rewrite andb_true_r.
Qed.

Lemma Stream_eq_refl s : Stream_eq s s = true.
Proof.
  unfold Stream_eq. destruct (_ && _); auto.
  rewrite Z.eqb_refl. simpl. now apply bool_decide_eq_true_2.
Qed.
End stream_facts.

(** ** Reading and comparing streams *)

Section stream_claims.
Context {T : Type} `{EqDecision T} `{Group.AbelianGroupOperation T}.
Implicit Types (l : list T) (s : Stream T) (v : T).

Lemma iter_send_default (n : nat) s :
  Nat.iter n (fun x => send (default x) x) s
  = advance (timestamp s + Z.of_nat n) s.
Proof.
  induction n as [|n IH].
  - simpl. now rewrite advance_below by lia.
  - rewrite Nat.iter_succ, IH, send_default, advance_advance. simpl.
    f_equal. lia.
Qed.

(** C7 (Stream.__eq__).  Two streams that were only ever sent their
    default are equal whatever their cursors; in every other case two
    streams are equal exactly when their cursors are equal and their
    [inner] dictionaries are equal.  The integer streams with cursors 0
    and 100 that were sent nothing but 0 are equal. *)
Theorem Stream_eq_identity_or_exact :
  (forall l1 l2,
      all_default l1 = true -> all_default l2 = true ->
      Stream_eq (sent l1) (sent l2) = true)
  /\ (forall l1 l2,
      all_default l1 && all_default l2 = false ->
      (Stream_eq (sent l1) (sent l2) = true <->
       get_current_time (sent l1) = get_current_time (sent l2)
       /\ inner (sent l1) = inner (sent l2)))
  /\ (forall s1 s2 : Stream T,
      Stream_eq s1 s2 =
        if is_identity_stream s1 && is_identity_stream s2 then true
        else bool_decide (get_current_time s1 = get_current_time s2
                          /\ inner s1 = inner s2))
  /\ (let a := sent (T := Z) [] in
      let b := sent (T := Z) (repeat 0 100) in
      get_current_time a = 0 /\ get_current_time b = 100
      /\ Stream_eq a b = true).
Proof.
  assert (Hgen : forall s1 s2 : Stream T,
      Stream_eq s1 s2 =
        if is_identity_stream s1 && is_identity_stream s2 then true
        else bool_decide (get_current_time s1 = get_current_time s2
                          /\ inner s1 = inner s2)).
  { intros s1 s2. unfold Stream_eq. destruct (_ && _); auto.
    destruct (Z.eqb_spec (get_current_time s1) (get_current_time s2))
      as [Heq|Hne]; simpl.
    - destruct (decide (inner s1 = inner s2)) as [Hi|Hi].
      + now rewrite !bool_decide_eq_true_2.
      + rewrite !bool_decide_eq_false_2; auto. tauto.
    - rewrite bool_decide_eq_false_2; auto. tauto. }
  split; [|split; [|split; [exact Hgen|]]].
  - intros l1 l2 H1 H2. rewrite Hgen. unfold is_identity_stream.
    now rewrite !identity_sent, H1, H2.
  - intros l1 l2 Hnot. rewrite Hgen. unfold is_identity_stream.
    rewrite !identity_sent, Hnot. apply bool_decide_eq_true.
  - vm_compute. auto.
Qed.

(** C8 (Stream.__getitem__, second branch).  A read of a reachable stream
    at a timestamp beyond the cursor sends the default until the cursor is
    the timestamp, records nothing, and returns the default.  The integer
    stream with cursor 2 and nothing recorded, read at 5, ends with cursor
    5 and the read returns 0. *)
Theorem getitem_beyond_cursor_extends :
  (forall s (t : Z),
      reachable s -> get_current_time s < t ->
      exists s',
        getitem t s = (Ret (default s), s')
        /\ get_current_time s' = t
        /\ s' = Nat.iter (Z.to_nat (t - get_current_time s))
                         (fun x => send (default x) x) s
        /\ inner s' = inner s
        /\ identity s' = identity s
        /\ default s' = default s
        /\ default s = Group.identity)
  /\ (let s := sent (T := Z) [0; 0] in
      default s = 0 /\ get_current_time s = 2 /\ inner s = []
      /\ exists r : Stream Z,
          getitem 5 s = (Ret 0, r) /\ get_current_time r = 5).
Proof.
  split.
  - intros s t Hs Ht. unfold get_current_time in *.
    exists (advance t s).
    pose proof Hs as [l ->]%reachable_inv.
    rewrite getitem_reachable by (auto; rewrite timestamp_sent in Ht; lia).
    rewrite iter_send_default. unfold recorded.
    rewrite inner_sent_outside by (rewrite timestamp_sent in Ht; lia).
    rewrite default_sent.
    replace (timestamp (sent l) + Z.of_nat (Z.to_nat (t - timestamp (sent l))))
      with t by lia.
    split; [reflexivity|]. split; [simpl; lia|].
    split; [reflexivity|]. split; [reflexivity|]. split; [reflexivity|].
    split; [apply default_sent | reflexivity].
  - vm_compute. repeat split. eexists. split; reflexivity.
Qed.

(** C9 (Stream.__getitem__, first test).  A read at a negative timestamp
    raises [ValueError] and leaves every field of the stream as it was. *)
Theorem getitem_negative_raises s (t : Z) :
  t < 0 ->
  getitem t s = (Raise ValueError, s)
  /\ forall depth, getitem_rec depth t s = (Raise ValueError, s).
Proof.
  intros Ht. split; [now apply getitem_negative|].
  intros [|depth]; simpl; now destruct (Z.ltb_spec t 0); [|lia].
Qed.
End stream_claims.

Lemma Stream_eq_identity_or_exact_witness :
  all_default (T := Z) [0; 0] = true /\ all_default (T := Z) [] = true
  /\ Stream_eq (sent (T := Z) [0; 0]) (sent []) = true.
Proof.
  split; [reflexivity|]. split; [reflexivity|].
  apply (proj1 (Stream_eq_identity_or_exact (T := Z)) [0; 0] []);
    reflexivity.
Defined.

Lemma getitem_beyond_cursor_extends_witness :
  reachable (sent (T := Z) [3; 0]) /\ get_current_time (sent (T := Z) [3; 0]) < 4
  /\ exists s', getitem 4 (sent (T := Z) [3; 0]) = (Ret 0, s')
                /\ get_current_time s' = 4.
Proof.
  split; [apply reachable_sent|]. split; [vm_compute; reflexivity|].
  destruct (proj1 (getitem_beyond_cursor_extends (T := Z)) (sent [3; 0]) 4)
    as (s' & Hget & Hts & _).
  - apply reachable_sent.
  - vm_compute; reflexivity.
  - exists s'. split; [exact Hget | exact Hts].
Defined.

Lemma getitem_negative_raises_witness :
  -1 < 0 /\ getitem (-1) (sent (T := Z) [3; 5]) = (Raise ValueError, sent [3; 5]).
Proof.
  split; [lia|]. apply (getitem_negative_raises (sent [3; 5]) (-1)). lia.
Defined.

(** ** The store *)

Section store_facts.
Context {T : Type} `{EqDecision T} `{Group.AbelianGroupOperation T}.
Implicit Types (st : Store T) (s : Stream T) (h : StreamHandle).

Lemma bind_ret {A B} (m : M T A) (k : A -> M T B) st a st' :
  m st = (Ret a, st') -> bind m k st = k a st'.
Proof. intros Hm. unfold bind. now rewrite Hm. Qed.

Lemma on_stream_reading {A} (f : Stream T -> A) h st s :
  st !! h = Some s -> on_stream h (reading f) st = (Ret (f s), st).
Proof.
  intros Hh. unfold on_stream, reading. rewrite Hh.
  now rewrite list_insert_id.
Qed.

Lemma on_stream_writing (f : Stream T -> Stream T) h st s :
  st !! h = Some s ->
  on_stream h (writing f) st = (Ret tt, <[h := f s]> st).
Proof. intros Hh. unfold on_stream, writing. now rewrite Hh. Qed.

Lemma on_stream_getitem (t : Z) h st s :
  st !! h = Some s -> reachable s -> 0 <= t ->
  on_stream h (getitem t) st = (Ret (recorded s t), <[h := advance t s]> st).
Proof.
  intros Hh Hs Ht. unfold on_stream. rewrite Hh.
  now rewrite getitem_reachable.
Qed.

Lemma lookup_insert_same st h s s' :
  st !! h = Some s -> <[h := s']> st !! h = Some s'.
Proof. intros Hh. apply list_lookup_insert_eq. eapply lookup_lt_Some, Hh. Qed.

Lemma lookup_alloc st s : (st ++ [s]) !! length st = Some s.
Proof. now apply list_lookup_middle. Qed.

Lemma lookup_alloc_old st h s s' :
  st !! h = Some s -> (st ++ [s']) !! h = Some s.
Proof. apply lookup_app_l_Some. Qed.

Lemma lookup_alloc_ne st h s : st !! h <> None -> h <> length st.
Proof.
  intros Hh ->. apply Hh, lookup_ge_None. lia.
Qed.
End store_facts.

(** Lookups in a store that was updated at known handles. *)
Ltac lookup_any :=
  lazymatch goal with
  | |- <[?h := _]> _ !! ?h = Some _ => eapply lookup_insert_same; lookup_any
  | |- <[_ := _]> _ !! _ = Some _ =>
      rewrite list_lookup_insert_ne by congruence; lookup_any
  | |- _ => eassumption
  end.

(** ** One step of the elementary operators *)

Section operator_steps.
Context {T : Type} `{EqDecision T} `{Group.AbelianGroupOperation T}.
Implicit Types (st : Store T) (s : Stream T) (h : StreamHandle).

Lemma Delay_step_eq (d : Delay) st si so :
  st !! Delay_input d = Some si -> st !! Delay_output d = Some so ->
  reachable si -> 0 <= timestamp so ->
  Delay_step d st =
    if timestamp so <=? timestamp si then
      (Ret (false, d),
       <[Delay_output d := send (recorded si (timestamp so)) so]> st)
    else (Ret (true, d), st).
Proof.
  intros Hi Ho Hsi Hts. unfold Delay_step.
  erewrite bind_ret by (apply on_stream_reading; eauto).
  erewrite bind_ret by (apply on_stream_reading; eauto).
  unfold get_current_time.
  destruct (Z.leb_spec (timestamp so) (timestamp si)); [|reflexivity].
  erewrite bind_ret by (apply on_stream_getitem; eauto).
  rewrite advance_below, list_insert_id by auto.
  erewrite bind_ret by (apply on_stream_writing; eauto).
  reflexivity.
Qed.

Lemma Lift1_step_eq (op : Lift1) st si so :
  st !! Lift1_input op = Some si -> st !! Lift1_output op = Some so ->
  Lift1_input op <> Lift1_output op ->
  reachable si -> 0 <= frontier op ->
  Lift1_step op st =
    if decide (Z.max (Z.max (timestamp si) (timestamp so)) (frontier op)
               = Z.min (Z.min (timestamp si) (timestamp so)) (frontier op))
    then (Ret (true, op), st)
    else
      (Ret (false, mkLift1 (Lift1_input op) (Lift1_output op) (f1 op)
                           (frontier op + 1)),
       <[Lift1_output op :=
           send (f1 op (recorded si (frontier op + 1))) so]>
         (<[Lift1_input op := advance (frontier op + 1) si]> st)).
Proof.
  intros Hi Ho Hne Hsi Hf. unfold Lift1_step.
  erewrite bind_ret by (apply on_stream_reading; eauto).
  erewrite bind_ret by (apply on_stream_reading; eauto).
  unfold get_current_time. cbv zeta.
  destruct (decide _); [reflexivity|].
  erewrite bind_ret by (apply on_stream_getitem; eauto; lia).
  erewrite bind_ret
    by (apply on_stream_writing; rewrite list_lookup_insert_ne; eauto).
  reflexivity.
Qed.

Lemma Lift2_step_eq (op : Lift2) hb st sa sb so :
  Lift2_input_b op = Some hb ->
  st !! Lift2_input_a op = Some sa -> st !! hb = Some sb ->
  st !! Lift2_output op = Some so ->
  Lift2_input_a op <> Lift2_output op -> hb <> Lift2_output op ->
  reachable sa -> reachable sb ->
  0 <= frontier_a op -> 0 <= frontier_b op ->
  Lift2_step op st =
    if decide (max5 (timestamp sa) (timestamp sb) (timestamp so)
                    (frontier_a op) (frontier_b op)
               = min5 (timestamp sa) (timestamp sb) (timestamp so)
                      (frontier_a op) (frontier_b op))
    then (Ret (true, op), st)
    else
      let sb' :=
        if decide (Lift2_input_a op = hb)
        then advance (frontier_a op + 1) sa else sb in
      (Ret (false, mkLift2 (Lift2_input_a op) (Lift2_input_b op)
                           (Lift2_output op) (f2 op)
                           (frontier_a op + 1) (frontier_b op + 1)),
       <[Lift2_output op :=
           send (f2 op (recorded sa (frontier_a op + 1))
                       (recorded sb (frontier_b op + 1))) so]>
         (<[hb := advance (frontier_b op + 1) sb']>
            (<[Lift2_input_a op := advance (frontier_a op + 1) sa]> st))).
Proof.
  intros Hb Ha Hhb Ho Hao Hbo Hsa Hsb Hfa Hfb. unfold Lift2_step.
  erewrite bind_ret by (apply on_stream_reading; eauto).
  unfold input_b. rewrite Hb.
  erewrite (bind_ret (ret hb)) by reflexivity.
  erewrite bind_ret by (apply on_stream_reading; eauto).
  erewrite bind_ret by (apply on_stream_reading; eauto).
  unfold get_current_time. cbv zeta.
  destruct (decide (max5 _ _ _ _ _ = _)); [reflexivity|].
  erewrite bind_ret by (apply on_stream_getitem; eauto; lia).
  destruct (decide (Lift2_input_a op = hb)) as [<-|Hab].
  - assert (sb = sa) as -> by congruence.
    erewrite bind_ret.
    2:{ apply on_stream_getitem;
          [eapply lookup_insert_same; eauto | | lia].
        destruct (reachable_inv _ Hsa) as [l ->].
        rewrite <- (Z2Nat.id (frontier_a op + 1)) by lia.
        rewrite advance_sent. apply reachable_sent. }
    erewrite bind_ret.
    2:{ apply on_stream_writing.
        rewrite !list_lookup_insert_ne by auto. eauto. }
    reflexivity.
  - erewrite bind_ret.
    2:{ apply on_stream_getitem; [|eauto|lia].
        rewrite list_lookup_insert_ne by auto. eauto. }
    erewrite bind_ret.
    2:{ apply on_stream_writing.
        rewrite !list_lookup_insert_ne by auto. eauto. }
    reflexivity.
Qed.
End operator_steps.

(** ** Lift1 and Lift2 *)

Section lift_claims.
Context {T : Type} `{EqDecision T} `{Group.AbelianGroupOperation T}.
Implicit Types (st : Store T) (s : Stream T) (h : StreamHandle).

(** C2, as the code has it (Lift1.step, Lift2.step).  The join and the meet
    are taken over the cursors of the input streams, the cursor of the
    output and the frontiers.  When they coincide the step returns true and
    leaves the store and the operator as they were.  Otherwise it reads
    every input at its frontier plus one, sends the function of the values
    read to the output, whose cursor moves by one, adds one to every
    frontier and returns false; an input is changed in its cursor only. *)
Theorem Lift_step_join_meet :
  (forall (op : Lift1) st si so,
      st !! Lift1_input op = Some si -> st !! Lift1_output op = Some so ->
      Lift1_input op <> Lift1_output op ->
      reachable si -> 0 <= frontier op ->
      let join := Z.max (Z.max (get_current_time si) (get_current_time so))
                        (frontier op) in
      let meet := Z.min (Z.min (get_current_time si) (get_current_time so))
                        (frontier op) in
      (join = meet -> Lift1_step op st = (Ret (true, op), st))
      /\ (join <> meet ->
          exists st' x,
            Lift1_step op st =
              (Ret (false, mkLift1 (Lift1_input op) (Lift1_output op)
                                   (f1 op) (frontier op + 1)), st')
            /\ fst (on_stream (Lift1_input op) (getitem (frontier op + 1)) st)
               = Ret x
            /\ st' !! Lift1_output op = Some (send (f1 op x) so)
            /\ get_current_time (send (f1 op x) so) = get_current_time so + 1
            /\ st' !! Lift1_input op = Some (advance (frontier op + 1) si)))
  /\ (forall (op : Lift2) hb st sa sb so,
      Lift2_input_b op = Some hb ->
      st !! Lift2_input_a op = Some sa -> st !! hb = Some sb ->
      st !! Lift2_output op = Some so ->
      Lift2_input_a op <> Lift2_output op -> hb <> Lift2_output op ->
      reachable sa -> reachable sb ->
      0 <= frontier_a op -> 0 <= frontier_b op ->
      let join := max5 (get_current_time sa) (get_current_time sb)
                       (get_current_time so) (frontier_a op) (frontier_b op) in
      let meet := min5 (get_current_time sa) (get_current_time sb)
                       (get_current_time so) (frontier_a op) (frontier_b op) in
      (join = meet -> Lift2_step op st = (Ret (true, op), st))
      /\ (join <> meet ->
          exists st' st1 x y sa' sb',
            Lift2_step op st =
              (Ret (false, mkLift2 (Lift2_input_a op) (Lift2_input_b op)
                                   (Lift2_output op) (f2 op)
                                   (frontier_a op + 1) (frontier_b op + 1)),
               st')
            /\ on_stream (Lift2_input_a op) (getitem (frontier_a op + 1)) st
               = (Ret x, st1)
            /\ fst (on_stream hb (getitem (frontier_b op + 1)) st1) = Ret y
            /\ st' !! Lift2_output op = Some (send (f2 op x y) so)
            /\ get_current_time (send (f2 op x y) so)
               = get_current_time so + 1
            /\ st' !! Lift2_input_a op = Some sa' /\ st' !! hb = Some sb'
            /\ (exists t, sa' = advance t sa)
            /\ (exists t, sb' = advance t sb))).
Proof.
  split.
  - intros op st si so Hi Ho Hne Hsi Hf join meet.
    pose proof (Lift1_step_eq op st si so Hi Ho Hne Hsi Hf) as Hstep.
    fold join meet in Hstep. split; intros Hjm.
    + now rewrite Hstep, decide_True.
    + rewrite decide_False in Hstep by assumption.
      eexists _, (recorded si (frontier op + 1)).
      split; [exact Hstep|].
      split; [now rewrite (on_stream_getitem _ _ _ si) by (auto; lia)|].
      split.
      { eapply lookup_insert_same. rewrite list_lookup_insert_ne; eauto. }
      split; [apply timestamp_send|].
      rewrite list_lookup_insert_ne by auto.
      eapply lookup_insert_same; eauto.
  - intros op hb st sa sb so Hb Ha Hhb Ho Hao Hbo Hsa Hsb Hfa Hfb join meet.
    pose proof (Lift2_step_eq op hb st sa sb so
                  Hb Ha Hhb Ho Hao Hbo Hsa Hsb Hfa Hfb) as Hstep.
    unfold get_current_time in *. fold join meet in Hstep.
    split; intros Hjm.
    + now rewrite Hstep, decide_True.
    + rewrite decide_False in Hstep by assumption. cbv zeta in Hstep.
      destruct (decide (Lift2_input_a op = hb)) as [<-|Hab].
      * assert (sb = sa) as -> by congruence.
        eexists _, _, (recorded sa (frontier_a op + 1)),
          (recorded sa (frontier_b op + 1)), _, _.
        split; [exact Hstep|].
        split; [apply on_stream_getitem; eauto; lia|].
        split.
        { unfold on_stream. erewrite lookup_insert_same by eauto.
          rewrite getitem_plain; [reflexivity| |lia].
          destruct (reachable_inv _ Hsa) as [l ->].
          apply default_changes_sent. }
        split.
        { eapply lookup_insert_same.
          rewrite !list_lookup_insert_ne; eauto. }
        split; [apply timestamp_send|].
        rewrite list_lookup_insert_ne by auto.
        rewrite (lookup_insert_same _ _ (advance (frontier_a op + 1) sa))
          by (eapply lookup_insert_same; eauto).
        split; [reflexivity|]. split; [reflexivity|].
        rewrite advance_advance. split; eauto.
      * eexists _, _, (recorded sa (frontier_a op + 1)),
          (recorded sb (frontier_b op + 1)), _, _.
        split; [exact Hstep|].
        split; [apply on_stream_getitem; eauto; lia|].
        split.
        { unfold on_stream. rewrite list_lookup_insert_ne, Hhb by auto.
          rewrite getitem_reachable; [reflexivity|auto|lia]. }
        split.
        { eapply lookup_insert_same.
          rewrite !list_lookup_insert_ne; eauto. }
        split; [apply timestamp_send|].
        rewrite (list_lookup_insert_ne _ (Lift2_output op)) by auto.
        rewrite (list_lookup_insert_ne _ hb (Lift2_input_a op)) by auto.
        rewrite (lookup_insert_same _ _ sa) by auto.
        rewrite (list_lookup_insert_ne _ (Lift2_output op)) by auto.
        rewrite (lookup_insert_same _ _ sb)
          by (rewrite list_lookup_insert_ne; auto).
        split; [reflexivity|]. split; [reflexivity|].
        split; eauto.
Qed.
End lift_claims.

(** C2, as the spec words it, is not what the code does: the join and the
    meet also range over the cursor of the input.  A new [Lift1] over an
    input with cursor 1 has frontier 0 and output cursor 0, which coincide,
    and yet its step sends a value to the output and returns false. *)
Lemma Lift_step_frontiers_only_counterexample :
  let f := fun x : Z => x in
  let op := mkLift1 0%nat 1%nat f 0 in
  Lift1_init 0%nat f [sent [5]] = (Ret op, [sent [5]; Stream_init])
  /\ Z.max (frontier op) (get_current_time (Stream_init (T := Z)))
     = Z.min (frontier op) (get_current_time (Stream_init (T := Z)))
  /\ Lift1_step op [sent [5]; Stream_init]
     = (Ret (false, mkLift1 0%nat 1%nat f 1), [sent [5]; sent [5]]).
Proof. vm_compute. repeat split. Qed.

Lemma Lift_step_join_meet_witness :
  let op := mkLift1 0%nat 1%nat (fun x : Z => x) 0 in
  let st := [sent [5]; Stream_init] in
  exists st' x,
    Lift1_step op st = (Ret (false, mkLift1 0%nat 1%nat (f1 op) 1), st')
    /\ fst (on_stream 0%nat (getitem 1) st) = Ret x
    /\ st' !! 1%nat = Some (send (f1 op x) Stream_init).
Proof.
  intros op st.
  destruct (proj1 (Lift_step_join_meet (T := Z)) op st (sent [5]) Stream_init)
    as [_ Hgo]; try reflexivity.
  - simpl. lia.
  - apply reachable_sent.
  - destruct Hgo as (st' & x & H1 & H2 & H3 & _).
    + vm_compute. discriminate.
    + exists st', x. split; [exact H1|]. split; [exact H2 | exact H3].
Defined.

(** ** Draining an operator *)

Section draining.
Context {T : Type} `{EqDecision T} `{Group.AbelianGroupOperation T}.
Implicit Types (st : Store T) (s : Stream T) (h : StreamHandle).

(** The loop of [step_until_fixpoint], by an invariant indexed with the
    number of steps taken: [N] steps return false and keep the invariant,
    the next one returns true and establishes [Post]. *)
Lemma step_until_fixpoint_invariant {Op : Type} {HOp : Operator Op}
    (Inv : nat -> Op -> Store T -> Prop) (Post : Op -> Store T -> Prop)
    (N : nat) :
  (forall k op st, (k < N)%nat -> Inv k op st ->
     exists op' st', step op st = (Ret (false, op'), st') /\ Inv (S k) op' st') ->
  (forall op st, Inv N op st ->
     exists op' st', step op st = (Ret (true, op'), st') /\ Post op' st') ->
  forall fuel k op st,
    (k <= N)%nat -> Inv k op st -> (N - k < fuel)%nat ->
    exists op' st',
      step_until_fixpoint fuel op st = (Ret op', st') /\ Post op' st'.
Proof.
  intros Hgo Hstop fuel.
  induction fuel as [|fuel IH]; intros k op st Hk HInv Hfuel; [lia|].
  simpl. destruct (Nat.eq_dec k N) as [->|Hne].
  - destruct (Hstop op st HInv) as (op' & st' & Hstep & HPost).
    exists op', st'. now erewrite bind_ret by exact Hstep.
  - destruct (Hgo k op st ltac:(lia) HInv) as (op' & st' & Hstep & HInv').
    erewrite bind_ret by exact Hstep. simpl.
    apply (IH (S k)); auto; lia.
Qed.

Lemma reachable_advance (t : Z) s : reachable s -> reachable (advance t s).
Proof.
  intros [l ->]%reachable_inv.
  destruct (Z.le_gt_cases t (timestamp (sent l))).
  - rewrite advance_below by assumption. apply reachable_sent.
  - rewrite <- (Z2Nat.id t) by (rewrite timestamp_sent in *; lia).
    rewrite advance_sent. apply reachable_sent.
Qed.

Lemma recorded_advance (t t' : Z) s : recorded (advance t s) t' = recorded s t'.
Proof. reflexivity. Qed.

Lemma value_at_map_seq0 (f : nat -> T) (k t : nat) :
  (t < k)%nat -> value_at (map f (seq 0 k)) (S t) = f t.
Proof.
  intros Ht. unfold value_at. simpl.
  rewrite (nth_indep _ _ (f 0%nat)) by (rewrite length_map, length_seq; lia).
  rewrite map_nth, seq_nth by lia. reflexivity.
Qed.

Lemma value_at_map_seq1 (f : nat -> T) (k t : nat) :
  (t < k)%nat -> value_at (map f (seq 1 k)) (S t) = f (S t).
Proof.
  intros Ht. unfold value_at. simpl.
  rewrite (nth_indep _ _ (f 0%nat)) by (rewrite length_map, length_seq; lia).
  rewrite map_nth, seq_nth by lia. reflexivity.
Qed.

Lemma sent_map_seq_S (f : nat -> T) (a k : nat) :
  send (f (a + k)%nat) (sent (map f (seq a k))) = sent (map f (seq a (S k))).
Proof. rewrite seq_S, map_app. simpl. now rewrite sent_snoc. Qed.

Lemma timestamp_sent_map (f : nat -> T) (a k : nat) :
  timestamp (sent (map f (seq a k))) = Z.of_nat k.
Proof. now rewrite timestamp_sent, length_map, length_seq. Qed.

Lemma recorded_sent_Z (l : list T) (z : Z) :
  0 <= z -> recorded (sent l) z = value_at l (Z.to_nat z).
Proof. intros Hz. now rewrite <- recorded_sent, Z2Nat.id. Qed.

(** The constructors allocate the output after the existing streams. *)
Lemma Delay_init_eq h st s :
  st !! h = Some s ->
  Delay_init h st = (Ret (mkDelay h (length st)), st ++ [Stream_init]).
Proof.
  intros Hh. unfold Delay_init.
  erewrite bind_ret by (apply on_stream_reading; eauto).
  reflexivity.
Qed.

Lemma Lift1_init_eq h f st s :
  st !! h = Some s ->
  Lift1_init h f st = (Ret (mkLift1 h (length st) f 0), st ++ [Stream_init]).
Proof.
  intros Hh. unfold Lift1_init.
  erewrite bind_ret by (apply on_stream_reading; eauto).
  reflexivity.
Qed.

Lemma Lift2_init_eq h hb f st s :
  st !! h = Some s ->
  Lift2_init h hb f st
  = (Ret (mkLift2 h hb (length st) f 0 0), st ++ [Stream_init]).
Proof.
  intros Hh. unfold Lift2_init.
  erewrite bind_ret by (apply on_stream_reading; eauto).
  reflexivity.
Qed.

(** *** Delay *)

Lemma Delay_inv_step hi ho si k op st :
  hi <> ho -> reachable si ->
  Delay_inv hi ho si k op st ->
  if Z.of_nat k <=? timestamp si then
    exists st', step op st = (Ret (false, op), st')
                /\ Delay_inv hi ho si (S k) op st'
  else step op st = (Ret (true, op), st).
Proof.
  intros Hne Hsi (-> & Hi & Ho). simpl.
  rewrite (Delay_step_eq (mkDelay hi ho) st si _ Hi Ho Hsi)
    by (rewrite timestamp_sent_map; lia).
  rewrite timestamp_sent_map.
  destruct (Z.leb_spec (Z.of_nat k) (timestamp si)); [|reflexivity].
  eexists. split; [reflexivity|]. split; [reflexivity|].
  cbn [Delay_input Delay_output]. split.
  - rewrite list_lookup_insert_ne by auto. exact Hi.
  - erewrite lookup_insert_same by eauto.
    now rewrite <- sent_map_seq_S.
Qed.

Lemma Delay_drained hi ho si st fuel :
  hi <> ho -> reachable si ->
  st !! hi = Some si -> st !! ho = Some Stream_init ->
  (Z.to_nat (timestamp si) + 1 < fuel)%nat ->
  exists st',
    step_until_fixpoint fuel (mkDelay hi ho) st = (Ret (mkDelay hi ho), st')
    /\ st' !! hi = Some si
    /\ st' !! ho
       = Some (sent (map (values si) (seq 0 (S (Z.to_nat (timestamp si)))))).
Proof.
  intros Hne Hsi Hi Ho Hfuel.
  assert (0 <= timestamp si) as Hts.
  { destruct (reachable_inv _ Hsi) as [l ->]. rewrite timestamp_sent. lia. }
  destruct (step_until_fixpoint_invariant
              (Delay_inv hi ho si)
              (Delay_inv hi ho si (S (Z.to_nat (timestamp si))))
              (S (Z.to_nat (timestamp si))))
    with (fuel := fuel) (k := 0%nat) (op := mkDelay hi ho) (st := st)
    as (op' & st' & Hrun & (-> & Hi' & Ho')).
  - intros k op st0 Hk HInv.
    pose proof (Delay_inv_step _ _ _ _ _ _ Hne Hsi HInv) as Hstep.
    destruct (Z.leb_spec (Z.of_nat k) (timestamp si)); [|lia].
    destruct Hstep as (st' & Hstep & HInv'). eauto.
  - intros op st0 HInv.
    pose proof (Delay_inv_step _ _ _ _ _ _ Hne Hsi HInv) as Hstep.
    destruct (Z.leb_spec (Z.of_nat (S (Z.to_nat (timestamp si))))
                (timestamp si)); [lia|].
    eauto.
  - lia.
  - split; [reflexivity|]. split; [exact Hi|exact Ho].
  - lia.
  - exists st'. auto.
Qed.
End draining.

Section delay_claims.
Context {T : Type} `{EqDecision T} `{Group.AbelianGroupOperation T}.
Implicit Types (st : Store T) (s : Stream T) (h : StreamHandle).

(** A [Delay] over the stream behind [h], made and drained. *)
Lemma Delay_made_and_drained st h si fuel :
  st !! h = Some si -> reachable si ->
  (Z.to_nat (timestamp si) + 1 < fuel)%nat ->
  exists st',
    (d <- Delay_init h ;; step_until_fixpoint fuel d) st
    = (Ret (mkDelay h (length st)), st')
    /\ st' !! h = Some si
    /\ st' !! length st
       = Some (sent (map (values si) (seq 0 (S (Z.to_nat (timestamp si)))))).
Proof.
  intros Hh Hsi Hfuel.
  assert (h <> length st) as Hne by (apply lookup_alloc_ne; congruence).
  erewrite bind_ret by (eapply Delay_init_eq; eauto).
  destruct (Delay_drained h (length st) si (st ++ [Stream_init]) fuel)
    as (st' & Hrun & Hi & Ho); auto.
  - now apply lookup_alloc_old.
  - apply lookup_alloc.
  - exists st'. repeat split; auto.
Qed.

Lemma timestamp_reachable s : reachable s -> 0 <= timestamp s.
Proof. intros [l ->]%reachable_inv. rewrite timestamp_sent. lia. Qed.

(** C6 (Delay.step and its fixpoint).  While the cursor of the output is at
    most the cursor of the input, a step sends the input's value at the
    output's cursor to the output and returns false; once it is beyond, the
    step returns true and changes nothing.  A new [Delay] over a reachable
    stream, drained, leaves an output that holds the identity at 0 and the
    input's value at [t - 1] at every [t] from 1 to its cursor, which is one
    more than the input's. *)
Theorem Delay_shifts_by_one :
  (forall (d : Delay) st si so,
      st !! Delay_input d = Some si -> st !! Delay_output d = Some so ->
      reachable si -> 0 <= get_current_time so ->
      (get_current_time so <= get_current_time si ->
       exists x,
         getitem (get_current_time so) si = (Ret x, si)
         /\ Delay_step d st
            = (Ret (false, d), <[Delay_output d := send x so]> st))
      /\ (get_current_time si < get_current_time so ->
          Delay_step d st = (Ret (true, d), st)))
  /\ (forall st h si fuel,
      st !! h = Some si -> reachable si ->
      (Z.to_nat (get_current_time si) + 1 < fuel)%nat ->
      exists (d : Delay) (st' : Store T) (so : Stream T),
        (d <- Delay_init h ;; step_until_fixpoint fuel d) st = (Ret d, st')
        /\ st' !! Delay_output d = Some so
        /\ st' !! h = Some si
        /\ get_current_time so = get_current_time si + 1
        /\ fst (getitem 0 so) = Ret Group.identity
        /\ forall t, 1 <= t <= get_current_time so ->
             fst (getitem t so) = fst (getitem (t - 1) si)).
Proof.
  split.
  - intros d st si so Hi Ho Hsi Hso. unfold get_current_time in *.
    rewrite (Delay_step_eq d st si so) by assumption. split; intros Hts.
    + exists (recorded si (timestamp so)).
      rewrite getitem_reachable, advance_below by auto.
      split; [reflexivity|].
      now destruct (Z.leb_spec (timestamp so) (timestamp si)); [|lia].
    + now destruct (Z.leb_spec (timestamp so) (timestamp si)); [lia|].
  - intros st h si fuel Hh Hsi Hfuel. unfold get_current_time in *.
    destruct (Delay_made_and_drained st h si fuel Hh Hsi Hfuel)
      as (st' & Hrun & Hi & Ho).
    pose proof (timestamp_reachable _ Hsi) as Hts.
    eexists _, st', _. split; [exact Hrun|]. split; [exact Ho|].
    split; [exact Hi|]. split; [rewrite timestamp_sent_map; lia|].
    split.
    + rewrite getitem_reachable by (apply reachable_sent || lia).
      simpl. now rewrite recorded_sent_Z by lia.
    + intros t Ht. rewrite timestamp_sent_map in Ht.
      rewrite !getitem_reachable
        by first [apply reachable_sent | assumption | lia].
      cbn [fst]. f_equal. rewrite recorded_sent_Z by lia.
      replace (Z.to_nat t) with (S (Z.to_nat (t - 1))) by lia.
      rewrite value_at_map_seq0 by lia. unfold values.
      f_equal. lia.
Qed.
End delay_claims.

Lemma Delay_shifts_by_one_witness :
  exists (d : Delay) (st' : Store Z) (so : Stream Z),
    (d <- Delay_init 0%nat ;; step_until_fixpoint 5 d) [sent [3; 8; 10]]
    = (Ret d, st')
    /\ st' !! Delay_output d = Some so
    /\ get_current_time so = 4
    /\ fst (getitem 0 so) = Ret 0.
Proof.
  destruct (proj2 (Delay_shifts_by_one (T := Z))
              [sent [3; 8; 10]] 0%nat (sent [3; 8; 10]) 5%nat)
    as (d & st' & so & Hrun & Ho & _ & Hts & H0 & _).
  - reflexivity.
  - apply reachable_sent.
  - vm_compute. lia.
  - exists d, st', so. repeat split; assumption.
Defined.

(** ** Integrate *)

Section integrate_facts.
Context {T : Type} `{EqDecision T} `{Group.AbelianGroupOperation T}.
Implicit Types (st : Store T) (s : Stream T) (h : StreamHandle).

Lemma integral_at_cursor (x : nat -> T) (k : nat) :
  recorded (sent (map (integral x) (seq 1 k))) (Z.of_nat k) = integral x k.
Proof.
  rewrite recorded_sent. destruct k as [|k]; [reflexivity|].
  now rewrite value_at_map_seq1 by lia.
Qed.

Lemma Integrate_inv_step hi ho hd si st0 k op st :
  hi <> ho -> hi <> hd -> ho <> hd -> reachable si ->
  Integrate_inv hi ho hd si st0 k op st ->
  exists st',
    step op st
    = (Ret (Z.of_nat (S k) =? Z.max (timestamp si) (Z.of_nat (S k)),
            Integrate_at hi ho hd (S k)), st')
    /\ Integrate_inv hi ho hd si st0 (S k) (Integrate_at hi ho hd (S k)) st'.
Proof.
  intros Hio Hid Hod Hsi (-> & Hi & Hd & Ho & Hframe).
  set (x := values si) in *.
  (* the delay copies the sum at [k] *)
  pose proof (Delay_step_eq (mkDelay ho hd) st _ _ Ho Hd
                (reachable_sent _)) as HD.
  rewrite !timestamp_sent_map, Z.leb_refl, integral_at_cursor in HD.
  specialize (HD ltac:(lia)).
  change (integral x k) with (integral x (0 + k)) in HD.
  rewrite sent_map_seq_S in HD. cbn [Delay_output] in HD.
  set (st1 := <[hd := _]> st) in HD.
  assert (st1 !! hi = Some (advance (Z.of_nat k) si)) as Hi1
    by (subst st1; lookup_any).
  assert (st1 !! hd = Some (sent (map (integral x) (seq 0 (S k))))) as Hd1
    by (subst st1; lookup_any).
  assert (st1 !! ho = Some (sent (map (integral x) (seq 1 k)))) as Ho1
    by (subst st1; lookup_any).
  (* the adder reads both inputs at [k + 1] *)
  pose proof (Lift2_step_eq
                (mkLift2 hi (Some hd) ho group_add (Z.of_nat k) (Z.of_nat k))
                hd st1 _ _ _ eq_refl Hi1 Hd1 Ho1 Hio (not_eq_sym Hod)
                (reachable_advance _ _ Hsi) (reachable_sent _)
                ltac:(simpl; lia) ltac:(simpl; lia)) as HL.
  cbn [Lift2_input_a Lift2_input_b Lift2_output f2 frontier_a frontier_b] in HL.
  rewrite decide_False in HL.
  2:{ unfold max5, min5. rewrite !timestamp_sent_map. simpl. lia. }
  rewrite (decide_False (P := hi = hd)) in HL by assumption.
  cbv zeta in HL.
  replace (Z.of_nat k + 1) with (Z.of_nat (S k)) in HL by lia.
  rewrite recorded_advance, recorded_sent, value_at_map_seq0 in HL by lia.
  rewrite advance_advance in HL.
  rewrite (advance_below _ (sent _)) in HL
    by (rewrite timestamp_sent_map; lia).
  replace (Z.max (Z.of_nat k) (Z.of_nat (S k))) with (Z.of_nat (S k)) in HL
    by lia.
  change (recorded si (Z.of_nat (S k))) with (x (S k)) in HL.
  change (group_add (x (S k)) (integral x k)) with (integral x (1 + k)) in HL.
  rewrite sent_map_seq_S in HL.
  set (st2 := <[ho := _]> _) in HL.
  assert (st2 !! hi = Some (advance (Z.of_nat (S k)) si)) as Hi2
    by (subst st2; lookup_any).
  assert (st2 !! hd = Some (sent (map (integral x) (seq 0 (S k))))) as Hd2
    by (subst st2; lookup_any).
  assert (st2 !! ho = Some (sent (map (integral x) (seq 1 (S k))))) as Ho2
    by (subst st2; lookup_any).
  assert (forall h, h <> hi -> h <> ho -> h <> hd -> st2 !! h = st0 !! h)
    as Hframe2.
  { intros h ? ? ?. subst st2 st1.
    rewrite !list_lookup_insert_ne by congruence. now apply Hframe. }
  exists st2. split; [|repeat split; assumption].
  cbn [step Integrate_Operator]. unfold Integrate_step, Integrate_at.
  cbn [Integrate_delayed_stream integration_stream Integrate_input
       step Delay_Operator Lift2_Operator].
  erewrite bind_ret by exact HD.
  erewrite bind_ret by exact HL. cbn [snd Integrate_output integration_stream
    Integrate_input output_handle Lift2_Operator Lift2_output].
  erewrite bind_ret by (apply on_stream_reading; exact Ho2).
  erewrite bind_ret by (apply on_stream_reading; exact Hi2).
  unfold get_current_time. rewrite timestamp_sent_map. reflexivity.
Qed.
End integrate_facts.

Section integrate_drained.
Context {T : Type} `{EqDecision T} `{Group.AbelianGroupOperation T}.
Implicit Types (st : Store T) (s : Stream T) (h : StreamHandle).

Lemma Integrate_init_eq h st s :
  st !! h = Some s ->
  Integrate_init h st
  = (Ret (Integrate_at h (length st) (S (length st)) 0),
     (st ++ [Stream_init]) ++ [Stream_init]).
Proof.
  intros Hh. unfold Integrate_init, LiftedGroupAdd_init.
  erewrite bind_ret by (eapply Lift2_init_eq; eauto).
  erewrite bind_ret by (eapply Delay_init_eq; apply lookup_alloc).
  rewrite length_app. simpl. rewrite Nat.add_1_r. reflexivity.
Qed.

Lemma Integrate_drained hi ho hd si st fuel :
  hi <> ho -> hi <> hd -> ho <> hd -> reachable si ->
  st !! hi = Some si -> st !! ho = Some Stream_init ->
  st !! hd = Some Stream_init ->
  (rounds (timestamp si) <= fuel)%nat ->
  exists st',
    step_until_fixpoint fuel (Integrate_at hi ho hd 0) st
    = (Ret (Integrate_at hi ho hd (rounds (timestamp si))), st')
    /\ Integrate_inv hi ho hd si st (rounds (timestamp si))
         (Integrate_at hi ho hd (rounds (timestamp si))) st'.
Proof.
  intros Hio Hid Hod Hsi Hi Ho Hd Hfuel.
  pose proof (timestamp_reachable _ Hsi) as Hts.
  set (m := rounds (timestamp si)) in *.
  assert (1 <= m /\ Z.to_nat (timestamp si) <= m)%nat as [Hm1 Hmn]
    by (unfold m, rounds; lia).
  assert (Z.to_nat (timestamp si) = m \/ (timestamp si = 0 /\ m = 1%nat))
    as Hm by (unfold m, rounds; lia).
  destruct (step_until_fixpoint_invariant
              (Integrate_inv hi ho hd si st)
              (fun op st' => op = Integrate_at hi ho hd m
                             /\ Integrate_inv hi ho hd si st m op st')
              (m - 1))
    with (fuel := fuel) (k := 0%nat) (op := Integrate_at hi ho hd 0)
         (st := st)
    as (op' & st' & Hrun & -> & HInv).
  - intros k op st0 Hk HInv.
    destruct (Integrate_inv_step _ _ _ _ _ _ _ _ Hio Hid Hod Hsi HInv)
      as (st' & Hstep & HInv').
    exists (Integrate_at hi ho hd (S k)), st'. split; [|exact HInv'].
    rewrite Hstep. now rewrite (proj2 (Z.eqb_neq _ _)) by lia.
  - intros op st0 HInv.
    destruct (Integrate_inv_step _ _ _ _ _ _ _ _ Hio Hid Hod Hsi HInv)
      as (st' & Hstep & HInv').
    replace (S (m - 1)) with m in * by lia.
    exists (Integrate_at hi ho hd m), st'. split; [|split; auto].
    rewrite Hstep. now rewrite (proj2 (Z.eqb_eq _ _)) by lia.
  - lia.
  - split; [reflexivity|]. rewrite advance_below by (simpl; lia).
    repeat split; assumption.
  - lia.
  - exists st'. split; assumption.
Qed.

Lemma Integrate_made_and_drained st h si fuel :
  st !! h = Some si -> reachable si ->
  (rounds (timestamp si) <= fuel)%nat ->
  exists st',
    (op <- Integrate_init h ;; step_until_fixpoint fuel op) st
    = (Ret (Integrate_at h (length st) (S (length st))
              (rounds (timestamp si))), st')
    /\ st' !! h = Some (advance (Z.of_nat (rounds (timestamp si))) si)
    /\ st' !! length st
       = Some (sent (map (integral (values si))
                         (seq 1 (rounds (timestamp si)))))
    /\ forall h' s', h' <> h -> st !! h' = Some s' -> st' !! h' = Some s'.
Proof.
  intros Hh Hsi Hfuel.
  assert (h <> length st) as Hne by (apply lookup_alloc_ne; congruence).
  assert (h < length st)%nat as Hlt by (eapply lookup_lt_Some; eauto).
  erewrite bind_ret by (eapply Integrate_init_eq; eauto).
  destruct (Integrate_drained h (length st) (S (length st)) si
              ((st ++ [Stream_init]) ++ [Stream_init]) fuel)
    as (st' & Hrun & _ & Hi & _ & Ho & Hframe); auto; try lia.
  - now do 2 apply lookup_alloc_old.
  - apply lookup_alloc_old, lookup_alloc.
  - replace (S (length st)) with (length (st ++ [Stream_init]))
      by (rewrite length_app; simpl; lia).
    apply lookup_alloc.
  - exists st'. repeat split; auto.
    intros h' s' Hh' Hs'. apply lookup_lt_Some in Hs' as Hlt'.
    rewrite Hframe by lia. now do 2 apply lookup_alloc_old.
Qed.
End integrate_drained.

#[export] Instance IntegerAddition_Laws : Group.Laws Z.
Proof. split; simpl; intros; lia. Qed.

Section monad_inversion.
Context {T : Type} `{EqDecision T} `{Group.AbelianGroupOperation T}.
Implicit Types (st : Store T) (s : Stream T) (h : StreamHandle).

Lemma bind_inv {A B} (m : M T A) (k : A -> M T B) st b st' :
  bind m k st = (Ret b, st') ->
  exists a st1, m st = (Ret a, st1) /\ k a st1 = (Ret b, st').
Proof.
  unfold bind. destruct (m st) as [[a|e|] st1]; try discriminate.
  intros Hk. now exists a, st1.
Qed.

Lemma on_stream_reading_inv {A} (f : Stream T -> A) h st a st' :
  on_stream h (reading f) st = (Ret a, st') ->
  exists s, st !! h = Some s /\ a = f s /\ st' = st.
Proof.
  unfold on_stream, reading. destruct (st !! h) as [s|] eqn:Hh;
    [|discriminate].
  intros [= <- <-]. exists s. rewrite list_insert_id by exact Hh. auto.
Qed.
End monad_inversion.

Section group_sums.
Context {T : Type} `{EqDecision T} `{Group.AbelianGroupOperation T}.
Context `{!Group.Laws T}.





End group_sums.

Section integrate_claims.
Context {T : Type} `{EqDecision T} `{Group.AbelianGroupOperation T}.
Context `{!Group.Laws T}.
Implicit Types (st : Store T) (s : Stream T) (h : StreamHandle).


End integrate_claims.


(** ** Differentiate *)

Section differentiate_facts.
Context {T : Type} `{EqDecision T} `{Group.AbelianGroupOperation T}.
Implicit Types (st : Store T) (s : Stream T) (h : StreamHandle).

Lemma Differentiate_inv_step hi hd hn ho si st0 k op st :
  hi <> hd -> hi <> hn -> hi <> ho -> hd <> hn -> hd <> ho -> hn <> ho ->
  reachable si ->
  Differentiate_inv hi hd hn ho si st0 k op st ->
  exists st',
    step op st
    = (Ret (Z.of_nat (S k) =? Z.max (timestamp si) (Z.of_nat (S k)),
            Differentiate_at hi hd hn ho (S k)), st')
    /\ Differentiate_inv hi hd hn ho si st0 (S k)
         (Differentiate_at hi hd hn ho (S k)) st'.
Proof.
  intros Hid Hin Hio Hdn Hdo Hno Hsi (-> & Hi & Hd & Hn & Ho & Hframe).
  set (x := values si) in *.
  (* the delay copies the input at [k] *)
  pose proof (Delay_step_eq (mkDelay hi hd) st _ _ Hi Hd
                (reachable_advance _ _ Hsi)) as HD.
  rewrite timestamp_sent_map in HD. specialize (HD ltac:(lia)).
  replace (Z.of_nat k <=? timestamp (advance (Z.of_nat k) si)) with true
    in HD by (symmetry; apply Z.leb_le; simpl; lia).
  rewrite recorded_advance in HD.
  change (recorded si (Z.of_nat k)) with (x (0 + k)%nat) in HD.
  rewrite sent_map_seq_S in HD. cbn [Delay_output] in HD.
  set (st1 := <[hd := _]> st) in HD.
  assert (st1 !! hd = Some (sent (map x (seq 0 (S k))))) as Hd1
    by (subst st1; lookup_any).
  assert (st1 !! hn = Some (sent (map (fun j => group_neg (x j)) (seq 0 k))))
    as Hn1 by (subst st1; lookup_any).
  (* the negation reads the delay at [k + 1] *)
  pose proof (Lift1_step_eq (mkLift1 hd hn group_neg (Z.of_nat k))
                st1 _ _ Hd1 Hn1 Hdn (reachable_sent _)
                ltac:(simpl; lia)) as HN.
  cbn [Lift1_input Lift1_output f1 frontier] in HN.
  rewrite decide_False in HN by (rewrite !timestamp_sent_map; lia).
  replace (Z.of_nat k + 1) with (Z.of_nat (S k)) in HN by lia.
  rewrite recorded_sent, value_at_map_seq0 in HN by lia.
  rewrite (advance_below _ (sent _)) in HN
    by (rewrite timestamp_sent_map; lia).
  change (group_neg (x k))
    with ((fun j => group_neg (x j)) (0 + k)%nat) in HN.
  rewrite sent_map_seq_S in HN.
  set (st2 := <[hn := _]> _) in HN.
  assert (st2 !! hi = Some (advance (Z.of_nat k) si)) as Hi2
    by (subst st2 st1; lookup_any).
  assert (st2 !! hn
          = Some (sent (map (fun j => group_neg (x j)) (seq 0 (S k)))))
    as Hn2 by (subst st2; lookup_any).
  assert (st2 !! ho = Some (sent (map (difference x) (seq 1 k)))) as Ho2
    by (subst st2 st1; lookup_any).
  (* the adder reads the input and the negation at [k + 1] *)
  pose proof (Lift2_step_eq
                (mkLift2 hi (Some hn) ho group_add (Z.of_nat k) (Z.of_nat k))
                hn st2 _ _ _ eq_refl Hi2 Hn2 Ho2 Hio Hno
                (reachable_advance _ _ Hsi) (reachable_sent _)
                ltac:(simpl; lia) ltac:(simpl; lia)) as HL.
  cbn [Lift2_input_a Lift2_input_b Lift2_output f2 frontier_a frontier_b] in HL.
  rewrite decide_False in HL.
  2:{ unfold max5, min5. rewrite !timestamp_sent_map. simpl. lia. }
  rewrite (decide_False (P := hi = hn)) in HL by assumption.
  cbv zeta in HL.
  replace (Z.of_nat k + 1) with (Z.of_nat (S k)) in HL by lia.
  rewrite recorded_advance, recorded_sent, value_at_map_seq0 in HL by lia.
  rewrite advance_advance in HL.
  rewrite (advance_below _ (sent _)) in HL
    by (rewrite timestamp_sent_map; lia).
  replace (Z.max (Z.of_nat k) (Z.of_nat (S k))) with (Z.of_nat (S k)) in HL
    by lia.
  change (group_add (recorded si (Z.of_nat (S k))) (group_neg (x k)))
    with (difference x (1 + k)) in HL.
  rewrite sent_map_seq_S in HL.
  set (st3 := <[ho := _]> _) in HL.
  assert (st3 !! hi = Some (advance (Z.of_nat (S k)) si)) as Hi3
    by (subst st3; lookup_any).
  assert (st3 !! hd = Some (sent (map x (seq 0 (S k))))) as Hd3
    by (subst st3 st2; lookup_any).
  assert (st3 !! hn
          = Some (sent (map (fun j => group_neg (x j)) (seq 0 (S k)))))
    as Hn3 by (subst st3; lookup_any).
  assert (st3 !! ho = Some (sent (map (difference x) (seq 1 (S k))))) as Ho3
    by (subst st3; lookup_any).
  assert (forall h, h <> hi -> h <> hd -> h <> hn -> h <> ho ->
                    st3 !! h = st0 !! h) as Hframe3.
  { intros h ? ? ? ?. subst st3 st2 st1.
    rewrite !list_lookup_insert_ne by congruence. now apply Hframe. }
  exists st3. split; [|repeat split; assumption].
  cbn [step Differentiate_Operator].
  unfold Differentiate_step, Differentiate_at.
  cbn [Differentiate_delayed_stream delayed_negated_stream
       differentiation_stream Differentiate_input
       step Delay_Operator Lift1_Operator Lift2_Operator].
  erewrite bind_ret by exact HD.
  erewrite bind_ret by exact HN.
  erewrite bind_ret by exact HL.
  cbn [snd Differentiate_output differentiation_stream Differentiate_input
       output_handle Lift2_Operator Lift2_output].
  erewrite bind_ret by (apply on_stream_reading; exact Ho3).
  erewrite bind_ret by (apply on_stream_reading; exact Hi3).
  unfold get_current_time. rewrite timestamp_sent_map. reflexivity.
Qed.

Lemma Differentiate_init_eq h st s :
  st !! h = Some s ->
  Differentiate_init h st
  = (Ret (Differentiate_at h (length st) (S (length st)) (S (S (length st)))
            0),
     ((st ++ [Stream_init]) ++ [Stream_init]) ++ [Stream_init]).
Proof.
  intros Hh. unfold Differentiate_init, LiftedGroupAdd_init,
    LiftedGroupNegate_init.
  erewrite bind_ret by (eapply Delay_init_eq; eauto).
  erewrite bind_ret by (eapply Lift1_init_eq; apply lookup_alloc).
  erewrite bind_ret
    by (eapply Lift2_init_eq; do 2 apply lookup_alloc_old; eauto).
  rewrite !length_app. simpl. rewrite !Nat.add_1_r. reflexivity.
Qed.

Lemma Differentiate_drained hi hd hn ho si st fuel :
  hi <> hd -> hi <> hn -> hi <> ho -> hd <> hn -> hd <> ho -> hn <> ho ->
  reachable si ->
  st !! hi = Some si -> st !! hd = Some Stream_init ->
  st !! hn = Some Stream_init -> st !! ho = Some Stream_init ->
  (rounds (timestamp si) <= fuel)%nat ->
  exists st',
    step_until_fixpoint fuel (Differentiate_at hi hd hn ho 0) st
    = (Ret (Differentiate_at hi hd hn ho (rounds (timestamp si))), st')
    /\ Differentiate_inv hi hd hn ho si st (rounds (timestamp si))
         (Differentiate_at hi hd hn ho (rounds (timestamp si))) st'.
Proof.
  intros Hid Hin Hio Hdn Hdo Hno Hsi Hi Hd Hn Ho Hfuel.
  pose proof (timestamp_reachable _ Hsi) as Hts.
  set (m := rounds (timestamp si)) in *.
  assert (1 <= m /\ Z.to_nat (timestamp si) <= m)%nat as [Hm1 Hmn]
    by (unfold m, rounds; lia).
  assert (Z.to_nat (timestamp si) = m \/ (timestamp si = 0 /\ m = 1%nat))
    as Hm by (unfold m, rounds; lia).
  destruct (step_until_fixpoint_invariant
              (Differentiate_inv hi hd hn ho si st)
              (fun op st' => op = Differentiate_at hi hd hn ho m
                             /\ Differentiate_inv hi hd hn ho si st m op st')
              (m - 1))
    with (fuel := fuel) (k := 0%nat) (op := Differentiate_at hi hd hn ho 0)
         (st := st)
    as (op' & st' & Hrun & -> & HInv).
  - intros k op st0 Hk HInv.
    destruct (Differentiate_inv_step _ _ _ _ _ _ _ _ _
                Hid Hin Hio Hdn Hdo Hno Hsi HInv) as (st' & Hstep & HInv').
    exists (Differentiate_at hi hd hn ho (S k)), st'. split; [|exact HInv'].
    rewrite Hstep. now rewrite (proj2 (Z.eqb_neq _ _)) by lia.
  - intros op st0 HInv.
    destruct (Differentiate_inv_step _ _ _ _ _ _ _ _ _
                Hid Hin Hio Hdn Hdo Hno Hsi HInv) as (st' & Hstep & HInv').
    replace (S (m - 1)) with m in * by lia.
    exists (Differentiate_at hi hd hn ho m), st'. split; [|split; auto].
    rewrite Hstep. now rewrite (proj2 (Z.eqb_eq _ _)) by lia.
  - lia.
  - split; [reflexivity|]. rewrite advance_below by (simpl; lia).
    repeat split; assumption.
  - lia.
  - exists st'. split; assumption.
Qed.

Lemma Differentiate_made_and_drained st h si fuel :
  st !! h = Some si -> reachable si ->
  (rounds (timestamp si) <= fuel)%nat ->
  exists st',
    (op <- Differentiate_init h ;; step_until_fixpoint fuel op) st
    = (Ret (Differentiate_at h (length st) (S (length st))
              (S (S (length st))) (rounds (timestamp si))), st')
    /\ st' !! h = Some (advance (Z.of_nat (rounds (timestamp si))) si)
    /\ st' !! S (S (length st))
       = Some (sent (map (difference (values si))
                         (seq 1 (rounds (timestamp si)))))
    /\ forall h' s', h' <> h -> st !! h' = Some s' -> st' !! h' = Some s'.
Proof.
  intros Hh Hsi Hfuel.
  assert (h < length st)%nat as Hlt by (eapply lookup_lt_Some; eauto).
  erewrite bind_ret by (eapply Differentiate_init_eq; eauto).
  destruct (Differentiate_drained h (length st) (S (length st))
              (S (S (length st))) si
              (((st ++ [Stream_init]) ++ [Stream_init]) ++ [Stream_init])
              fuel)
    as (st' & Hrun & _ & Hi & _ & _ & Ho & Hframe); auto; try lia.
  - now do 3 apply lookup_alloc_old.
  - do 2 apply lookup_alloc_old. apply lookup_alloc.
  - apply lookup_alloc_old.
    replace (S (length st)) with (length (st ++ [Stream_init]))
      by (rewrite length_app; simpl; lia).
    apply lookup_alloc.
  - replace (S (S (length st)))
      with (length ((st ++ [Stream_init]) ++ [Stream_init]))
      by (rewrite !length_app; simpl; lia).
    apply lookup_alloc.
  - exists st'. repeat split; auto.
    intros h' s' Hh' Hs'. apply lookup_lt_Some in Hs' as Hlt'.
    rewrite Hframe by lia. now do 3 apply lookup_alloc_old.
Qed.
End differentiate_facts.

Section differentiate_claims.
Context {T : Type} `{EqDecision T} `{Group.AbelianGroupOperation T}.
Implicit Types (st : Store T) (s : Stream T) (h : StreamHandle).

(** C5 (Differentiate).  A new [Differentiate] over a reachable stream,
    drained, leaves an output with the cursor of the input that holds the
    identity at 0 and, at every timestamp [t] from 1 to the cursor, the
    input's value at [t] plus the inverse of its value at [t - 1].  A step
    is one step of the delay, then one of the negation, then one of the
    adder, and it returns true exactly when the cursor of the output then
    equals the cursor of the input.  Over the integers, the input
    [0, 3, 8, 10] gives the output [0, 3, 5, 2]. *)
Theorem Differentiate_consecutive_difference :
  (forall st h si fuel,
      st !! h = Some si -> reachable si ->
      (rounds (get_current_time si) <= fuel)%nat ->
      exists (op : Differentiate) (st' : Store T) (so si' : Stream T),
        (op <- Differentiate_init h ;; step_until_fixpoint fuel op) st
        = (Ret op, st')
        /\ st' !! Differentiate_output op = Some so
        /\ st' !! h = Some si'
        /\ get_current_time so = get_current_time si'
        /\ get_current_time si <= get_current_time si'
        /\ (forall t, fst (getitem t si') = fst (getitem t si))
        /\ fst (getitem 0 so) = Ret Group.identity
        /\ forall t, 1 <= t <= get_current_time si' ->
             exists x y,
               fst (getitem t si) = Ret x
               /\ fst (getitem (t - 1) si) = Ret y
               /\ fst (getitem t so) = Ret (Group.add x (Group.neg y)))
  /\ (forall (op op' : Differentiate) st st' (b : bool),
      Differentiate_step op st = (Ret (b, op'), st') ->
      exists r1 r2 r3 (st1 st2 : Store T) (so si : Stream T),
        Delay_step (Differentiate_delayed_stream op) st = (Ret r1, st1)
        /\ Lift1_step (delayed_negated_stream op) st1 = (Ret r2, st2)
        /\ Lift2_step (differentiation_stream op) st2 = (Ret r3, st')
        /\ op' = mkDifferentiate (Differentiate_input op)
                                 (snd r1) (snd r2) (snd r3)
        /\ st' !! Differentiate_output op' = Some so
        /\ st' !! Differentiate_input op' = Some si
        /\ (b = true <-> get_current_time so = get_current_time si))
  /\ (exists (op : Differentiate) (st' : Store Z) (so : Stream Z),
      (op <- Differentiate_init 0%nat ;; step_until_fixpoint 3 op)
        [sent [3; 8; 10]]
      = (Ret op, st')
      /\ fst (to_list (sent [3; 8; 10])) = Ret [0; 3; 8; 10]
      /\ st' !! Differentiate_output op = Some so
      /\ fst (to_list so) = Ret [0; 3; 5; 2]).
Proof.
  split; [|split].
  - intros st h si fuel Hh Hsi Hfuel. unfold get_current_time in *.
    destruct (Differentiate_made_and_drained st h si fuel Hh Hsi Hfuel)
      as (st' & Hrun & Hi & Ho & _).
    pose proof (timestamp_reachable _ Hsi) as Hts.
    set (m := rounds (timestamp si)) in *.
    assert (1 <= m)%nat as Hm by (unfold m, rounds; lia).
    assert (Z.to_nat (timestamp si) <= m)%nat as Hnm
      by (unfold m, rounds; lia).
    eexists _, st', _, _. split; [exact Hrun|].
    split; [exact Ho|]. split; [exact Hi|].
    rewrite timestamp_sent_map. simpl.
    split; [lia|]. split; [lia|]. split; [|split].
    + intros t. destruct (Z.lt_ge_cases t 0).
      * now rewrite !getitem_negative.
      * now rewrite !getitem_reachable by (auto using reachable_advance).
    + rewrite getitem_reachable by (apply reachable_sent || lia).
      cbn [fst]. now rewrite recorded_sent_Z by lia.
    + intros t Ht. exists (recorded si t), (recorded si (t - 1)).
      rewrite !(getitem_reachable _ si) by (auto; lia).
      split; [reflexivity|]. split; [reflexivity|].
      rewrite getitem_reachable by (apply reachable_sent || lia).
      cbn [fst]. f_equal. rewrite recorded_sent_Z by lia.
      replace (Z.to_nat t) with (S (Z.to_nat (t - 1))) by lia.
      rewrite value_at_map_seq1 by lia.
      unfold difference, values. cbn [Nat.pred].
      now replace (Z.of_nat (S (Z.to_nat (t - 1)))) with t by lia;
        replace (Z.of_nat (Z.to_nat (t - 1))) with (t - 1) by lia.
  - intros op op' st st' b Hstep. unfold Differentiate_step in Hstep.
    cbn [step Delay_Operator Lift1_Operator Lift2_Operator] in Hstep.
    apply bind_inv in Hstep as (r1 & st1 & H1 & Hstep).
    apply bind_inv in Hstep as (r2 & st2 & H2 & Hstep).
    apply bind_inv in Hstep as (r3 & st3 & H3 & Hstep).
    apply bind_inv in Hstep as (to & st4 & Hto & Hstep).
    apply bind_inv in Hstep as (ti & st5 & Hti & Hstep).
    apply on_stream_reading_inv in Hto as (so & Hso & -> & ->).
    apply on_stream_reading_inv in Hti as (si & Hsi & -> & ->).
    injection Hstep as <- <- <-.
    exists r1, r2, r3, st1, st2, so, si.
    repeat (split; [assumption || reflexivity|]).
    apply Z.eqb_eq.
  - eexists _, _, _. vm_compute. repeat split.
Qed.
End differentiate_claims.

Lemma Differentiate_consecutive_difference_witness :
  exists (op : Differentiate) (st' : Store Z) (so : Stream Z),
    (op <- Differentiate_init 0%nat ;; step_until_fixpoint 2 op)
      [sent [4; 1]]
    = (Ret op, st')
    /\ st' !! Differentiate_output op = Some so
    /\ exists x y,
        fst (getitem 2 (sent [4; 1])) = Ret x
        /\ fst (getitem (2 - 1) (sent [4; 1])) = Ret y
        /\ fst (getitem 2 so) = Ret (x + - y).
Proof.
  destruct (proj1 (Differentiate_consecutive_difference (T := Z))
              [sent [4; 1]] 0%nat (sent [4; 1]) 2%nat)
    as (op & st' & so & si' & Hrun & Ho & _ & _ & Hle & _ & _ & Hd).
  - reflexivity.
  - apply reachable_sent.
  - vm_compute. lia.
  - exists op, st', so. split; [exact Hrun|]. split; [exact Ho|].
    apply (Hd 2). split; [lia|]. exact Hle.
Defined.

(** ** StreamAddition *)

Section addition_facts.
Context {T : Type} `{EqDecision T} `{Group.AbelianGroupOperation T}.
Implicit Types (st : Store T) (s : Stream T) (h : StreamHandle).

Lemma LiftedGroupAdd_inv_step ha hb ho sa sb k op st :
  ha <> ho -> hb <> ho -> (ha = hb -> sa = sb) ->
  reachable sa -> reachable sb ->
  LiftedGroupAdd_inv ha hb ho sa sb k op st ->
  if decide (Z.max (timestamp sa) (timestamp sb) <= Z.of_nat k) then
    step op st = (Ret (true, op), st)
  else
    exists st',
      step op st = (Ret (false, LiftedGroupAdd_at ha hb ho (S k)), st')
      /\ LiftedGroupAdd_inv ha hb ho sa sb (S k)
           (LiftedGroupAdd_at ha hb ho (S k)) st'.
Proof.
  intros Hao Hbo Hab Hsa Hsb (-> & Ha & Hb & Ho).
  pose proof (Lift2_step_eq (LiftedGroupAdd_at ha hb ho k)
                hb st _ _ _ eq_refl Ha Hb Ho Hao Hbo
                (reachable_advance _ _ Hsa) (reachable_advance _ _ Hsb)
                ltac:(simpl; lia) ltac:(simpl; lia)) as HL.
  cbn [step Lift2_Operator]. rewrite HL. clear HL.
  cbn [LiftedGroupAdd_at Lift2_input_a Lift2_input_b Lift2_output f2
       frontier_a frontier_b].
  rewrite timestamp_sent_map. cbn [advance timestamp].
  destruct (decide (Z.max (timestamp sa) (timestamp sb) <= Z.of_nat k)).
  - rewrite decide_True by (unfold max5, min5; lia). reflexivity.
  - rewrite decide_False by (unfold max5, min5; lia). cbv zeta.
    fold (advance (Z.of_nat k) sa). fold (advance (Z.of_nat k) sb).
    replace (Z.of_nat k + 1) with (Z.of_nat (S k)) by lia.
    rewrite !recorded_advance.
    change (group_add (recorded sa (Z.of_nat (S k)))
                      (recorded sb (Z.of_nat (S k))))
      with (pointwise_sum sa sb (1 + k)).
    rewrite sent_map_seq_S.
    assert (forall s, advance (Z.of_nat (S k)) (advance (Z.of_nat k) s)
                      = advance (Z.of_nat (S k)) s) as Hadv.
    { intros s. rewrite advance_advance. f_equal. lia. }
    eexists. split; [reflexivity|]. split; [reflexivity|].
    destruct (decide (ha = hb)) as [Heq|Hne].
    + specialize (Hab Heq). subst hb sb.
      rewrite !Hadv, advance_advance, Z.max_id.
      repeat split; lookup_any.
    + rewrite !Hadv. repeat split; lookup_any.
Qed.

Lemma LiftedGroupAdd_drained ha hb ho sa sb st fuel :
  ha <> ho -> hb <> ho -> (ha = hb -> sa = sb) ->
  reachable sa -> reachable sb ->
  st !! ha = Some sa -> st !! hb = Some sb -> st !! ho = Some Stream_init ->
  (Z.to_nat (Z.max (timestamp sa) (timestamp sb)) < fuel)%nat ->
  exists st',
    step_until_fixpoint fuel (LiftedGroupAdd_at ha hb ho 0) st
    = (Ret (LiftedGroupAdd_at ha hb ho
              (Z.to_nat (Z.max (timestamp sa) (timestamp sb)))), st')
    /\ st' !! ha = Some (advance (Z.max (timestamp sa) (timestamp sb)) sa)
    /\ st' !! hb = Some (advance (Z.max (timestamp sa) (timestamp sb)) sb)
    /\ st' !! ho
       = Some (sent (map (pointwise_sum sa sb)
                      (seq 1 (Z.to_nat (Z.max (timestamp sa) (timestamp sb)))))).
Proof.
  intros Hao Hbo Hab Hsa Hsb Ha Hb Ho Hfuel.
  pose proof (timestamp_reachable _ Hsa) as Htsa.
  pose proof (timestamp_reachable _ Hsb) as Htsb.
  set (m := Z.to_nat (Z.max (timestamp sa) (timestamp sb))) in *.
  destruct (step_until_fixpoint_invariant
              (LiftedGroupAdd_inv ha hb ho sa sb)
              (LiftedGroupAdd_inv ha hb ho sa sb m) m)
    with (fuel := fuel) (k := 0%nat) (op := LiftedGroupAdd_at ha hb ho 0)
         (st := st)
    as (op' & st' & Hrun & -> & Ha' & Hb' & Ho').
  - intros k op st0 Hk HInv.
    pose proof (LiftedGroupAdd_inv_step _ _ _ _ _ _ _ _
                  Hao Hbo Hab Hsa Hsb HInv) as Hstep.
    destruct (decide _) in Hstep; [lia|].
    destruct Hstep as (st' & Hstep & HInv'). eauto.
  - intros op st0 HInv.
    pose proof (LiftedGroupAdd_inv_step _ _ _ _ _ _ _ _
                  Hao Hbo Hab Hsa Hsb HInv) as Hstep.
    destruct (decide _) in Hstep; [|lia]. eauto.
  - lia.
  - split; [reflexivity|]. rewrite !advance_below by lia.
    repeat split; assumption.
  - lia.
  - assert (Z.max (timestamp sa) (timestamp sb) = Z.of_nat m) as Hm
      by (unfold m; lia).
    exists st'. rewrite Hm. auto.
Qed.

(** [if flag: out.default = source.default] *)
Lemma copy_default_eq (flag : bool) (hs ho : StreamHandle) st ss so :
  st !! hs = Some ss -> st !! ho = Some so ->
  exists so',
    (if flag then
       d <- on_stream hs (reading default) ;;
       on_stream ho (writing (assign_default d))
     else ret tt) st
    = (Ret tt, <[ho := so']> st).
Proof.
  intros Hs Ho. destruct flag.
  - erewrite bind_ret by (apply on_stream_reading; eauto).
    erewrite on_stream_writing by eauto. eauto.
  - exists so. now rewrite list_insert_id.
Qed.
End addition_facts.

Section addition_claims.
Context {T : Type} `{EqDecision T} `{Group.AbelianGroupOperation T}.
Implicit Types (st : Store T) (s : Stream T) (h : StreamHandle).

(** C10 (StreamAddition.add).  Adding the streams behind [a] and [b], which
    may be one and the same, returns a new stream and leaves both with the
    larger of their two cursors; their [inner] dictionaries, identity
    flags, defaults and default histories are what they were. *)
Theorem StreamAddition_add_extends_operands st a b sa sb fuel :
  st !! a = Some sa -> st !! b = Some sb ->
  reachable sa -> reachable sb ->
  (Z.to_nat (Z.max (get_current_time sa) (get_current_time sb)) < fuel)%nat ->
  exists (out : StreamHandle) (st' : Store T) (sa' sb' : Stream T),
    StreamAddition_add fuel a b st = (Ret out, st')
    /\ out <> a /\ out <> b
    /\ st' !! a = Some sa' /\ st' !! b = Some sb'
    /\ get_current_time sa'
       = Z.max (get_current_time sa) (get_current_time sb)
    /\ get_current_time sb'
       = Z.max (get_current_time sa) (get_current_time sb)
    /\ inner sa' = inner sa /\ inner sb' = inner sb
    /\ identity sa' = identity sa /\ identity sb' = identity sb
    /\ default sa' = default sa /\ default sb' = default sb
    /\ default_changes sa' = default_changes sa
    /\ default_changes sb' = default_changes sb.
Proof.
  intros Ha Hb Hsa Hsb Hfuel. unfold get_current_time in *.
  assert (a <> length st) as Hao by (apply lookup_alloc_ne; congruence).
  assert (b <> length st) as Hbo by (apply lookup_alloc_ne; congruence).
  destruct (LiftedGroupAdd_drained a b (length st) sa sb
              (st ++ [Stream_init]) fuel)
    as (st1 & Hrun & Ha1 & Hb1 & Ho1); auto.
  { intros ->. congruence. }
  { now apply lookup_alloc_old. }
  { now apply lookup_alloc_old. }
  { apply lookup_alloc. }
  set (m := Z.max (timestamp sa) (timestamp sb)) in *.
  unfold StreamAddition_add, LiftedGroupAdd_init.
  erewrite bind_ret by (eapply Lift2_init_eq; eauto).
  unfold step_until_fixpoint_and_return.
  erewrite (bind_ret (bind _ _)).
  2:{ erewrite bind_ret by exact Hrun. reflexivity. }
  cbn [output_handle Lift2_Operator LiftedGroupAdd_at Lift2_output].
  erewrite bind_ret by (apply on_stream_reading; exact Ha1).
  destruct (copy_default_eq (is_identity_stream (advance m sa))
              b (length st) st1 _ _ Hb1 Ho1) as (so1 & Hc1).
  erewrite bind_ret by exact Hc1.
  assert (<[length st := so1]> st1 !! a = Some (advance m sa)) as Ha2
    by lookup_any.
  assert (<[length st := so1]> st1 !! b = Some (advance m sb)) as Hb2
    by lookup_any.
  assert (<[length st := so1]> st1 !! length st = Some so1) as Ho2
    by lookup_any.
  erewrite bind_ret by (apply on_stream_reading; exact Hb2).
  destruct (copy_default_eq (is_identity_stream (advance m sb))
              a (length st) _ _ _ Ha2 Ho2) as (so2 & Hc2).
  erewrite bind_ret by exact Hc2.
  eexists _, _, (advance m sa), (advance m sb).
  split; [reflexivity|].
  split; [congruence|]. split; [congruence|].
  split; [lookup_any|]. split; [lookup_any|].
  cbn [advance timestamp inner identity default default_changes].
  repeat split; lia.
Qed.
End addition_claims.

Lemma StreamAddition_add_extends_operands_witness :
  exists (out : StreamHandle) (st' : Store Z) (sa' sb' : Stream Z),
    StreamAddition_add 3 0%nat 1%nat [sent [1; 2]; sent [5]] = (Ret out, st')
    /\ st' !! 0%nat = Some sa' /\ st' !! 1%nat = Some sb'
    /\ get_current_time sa' = 2 /\ get_current_time sb' = 2
    /\ inner sb' = inner (sent [5]).
Proof.
  destruct (StreamAddition_add_extends_operands (T := Z)
              [sent [1; 2]; sent [5]] 0%nat 1%nat (sent [1; 2]) (sent [5])
              3%nat)
    as (out & st' & sa' & sb' & Hrun & _ & _ & Ha & Hb & Hta & Htb & _
        & Hib & _).
  - reflexivity.
  - reflexivity.
  - apply reachable_sent.
  - apply reachable_sent.
  - vm_compute. lia.
  - exists out, st', sa', sb'. repeat split; assumption.
Defined.

(** ** Integrate and Differentiate are inverse to each other *)

Section round_trip.
Context {T : Type} `{EqDecision T} `{Group.AbelianGroupOperation T}.
Context `{!Group.Laws T}.
Implicit Types (st : Store T) (s : Stream T) (h : StreamHandle).

Lemma made_and_returned {Op : Type} {HOp : Operator Op} {B}
    (init : M T Op) (fuel : nat) (k : StreamHandle -> M T B) st op' st' :
  (op <- init ;; step_until_fixpoint fuel op) st = (Ret op', st') ->
  (op <- init ;; r <- step_until_fixpoint_and_return fuel op ;; k r) st
  = k (output_handle op') st'.
Proof.
  intros (op0 & st0 & Hinit & Hrun)%bind_inv.
  erewrite bind_ret by exact Hinit.
  unfold step_until_fixpoint_and_return.
  erewrite (bind_ret (bind _ _)); [reflexivity|].
  now erewrite bind_ret by exact Hrun.
Qed.

Lemma made_and_returned_last {Op : Type} {HOp : Operator Op}
    (init : M T Op) (fuel : nat) st op' st' :
  (op <- init ;; step_until_fixpoint fuel op) st = (Ret op', st') ->
  (op <- init ;; step_until_fixpoint_and_return fuel op) st
  = (Ret (output_handle op'), st').
Proof.
  intros (op0 & st0 & Hinit & Hrun)%bind_inv.
  erewrite bind_ret by exact Hinit.
  unfold step_until_fixpoint_and_return.
  now erewrite bind_ret by exact Hrun.
Qed.


(** The values of [sent l] at [1..m] are [l], padded. *)
Lemma map_value_at_pad (l : list T) (m : nat) :
  (length l <= m)%nat -> map (value_at l) (seq 1 m) = pad l m.
Proof.
  intros Hm. apply (nth_ext _ _ Group.identity Group.identity).
  - rewrite length_map, length_seq, length_pad. lia.
  - intros j Hj. rewrite length_map, length_seq in Hj.
    change (nth j (map (value_at l) (seq 1 m)) Group.identity)
      with (value_at (map (value_at l) (seq 1 m)) (S j)).
    rewrite value_at_map_seq1 by assumption.
    now rewrite <- (value_at_pad l m).
Qed.

Lemma values_sent (l : list T) (j : nat) : values (sent l) j = value_at l j.
Proof. apply recorded_sent. Qed.

Lemma values_sent_map (f : nat -> T) (m j : nat) :
  (1 <= j <= m)%nat -> values (sent (map f (seq 1 m))) j = f j.
Proof.
  intros Hj. rewrite values_sent. destruct j as [|j]; [lia|].
  apply value_at_map_seq1. lia.
Qed.




End round_trip.



(** ** set_default and the drain that calls it *)

Section set_default_claims.
Context {T : Type} `{EqDecision T} `{Group.AbelianGroupOperation T}.
Implicit Types (st : Store T) (s : Stream T) (h : StreamHandle).

Lemma recorded_beyond s (t : Z) :
  reachable s -> timestamp s < t -> recorded s t = Group.identity.
Proof.
  intros [l ->]%reachable_inv Ht. rewrite timestamp_sent in Ht.
  unfold recorded. now rewrite inner_sent_outside by lia.
Qed.

(** The drain that is to set a new default returns the output as the plain
    drain leaves it. *)
Lemma made_and_defaulted {Op : Type} {HOp : Operator Op}
    (init : M T Op) (fuel : nat) st op' st' so :
  (op <- init ;; step_until_fixpoint fuel op) st = (Ret op', st') ->
  st' !! output_handle op' = Some so -> reachable so ->
  (op <- init ;; step_until_fixpoint_set_new_default_then_return fuel op) st
  = (Ret (output_handle op'), st').
Proof.
  intros (op0 & st0 & Hinit & Hrun)%bind_inv Ho Hso.
  erewrite bind_ret by exact Hinit.
  unfold step_until_fixpoint_set_new_default_then_return.
  erewrite bind_ret by exact Hrun. cbv zeta.
  pose proof (timestamp_reachable _ Hso) as Hts.
  erewrite bind_ret.
  2:{ unfold on_stream, latest, get_current_time. rewrite Ho.
      rewrite getitem_reachable, advance_below, list_insert_id
        by first [assumption | lia].
      reflexivity. }
  erewrite bind_ret by (apply on_stream_writing; exact Ho).
  unfold set_default. now rewrite list_insert_id.
Qed.

(** What the unfinished [set_default] makes of the drain that calls it.
    [set_default] leaves the stream as it is, so the drain of a new [Delay]
    or [Integrate] over a reachable stream returns the output of the plain
    drain: its default is still the identity of the group, and a read at any
    timestamp beyond its cursor returns the identity, whatever the latest
    value is. *)
Theorem set_default_is_a_placeholder :
  (forall v s, set_default v s = s)
  /\ (forall st h si fuel,
      st !! h = Some si -> reachable si ->
      (Z.to_nat (get_current_time si) + 1 < fuel)%nat ->
      exists (out : StreamHandle) (st' : Store T) (so : Stream T),
        (d <- Delay_init h ;;
         step_until_fixpoint_set_new_default_then_return fuel d) st
        = (Ret out, st')
        /\ (d <- Delay_init h ;; step_until_fixpoint_and_return fuel d) st
           = (Ret out, st')
        /\ st' !! out = Some so
        /\ default so = Group.identity
        /\ forall t, get_current_time so < t ->
             fst (getitem t so) = Ret Group.identity)
  /\ (forall st h si fuel,
      st !! h = Some si -> reachable si ->
      (rounds (get_current_time si) <= fuel)%nat ->
      exists (out : StreamHandle) (st' : Store T) (so : Stream T),
        (i <- Integrate_init h ;;
         step_until_fixpoint_set_new_default_then_return fuel i) st
        = (Ret out, st')
        /\ (i <- Integrate_init h ;; step_until_fixpoint_and_return fuel i) st
           = (Ret out, st')
        /\ st' !! out = Some so
        /\ default so = Group.identity
        /\ forall t, get_current_time so < t ->
             fst (getitem t so) = Ret Group.identity).
Proof.
  split; [reflexivity|]. unfold get_current_time. split.
  - intros st h si fuel Hh Hsi Hfuel.
    destruct (Delay_made_and_drained st h si fuel Hh Hsi Hfuel)
      as (st' & Hrun & _ & Ho).
    eexists _, st', _.
    split; [eapply made_and_defaulted; eauto using reachable_sent|].
    split.
    { pose proof Hrun as (op0 & st0 & Hinit & Hrun0)%bind_inv.
      erewrite bind_ret by exact Hinit.
      unfold step_until_fixpoint_and_return.
      now erewrite bind_ret by exact Hrun0. }
    split; [exact Ho|]. split; [apply default_sent|].
    intros t Ht. pose proof Ht as Ht'. rewrite timestamp_sent_map in Ht'.
    rewrite getitem_reachable by (apply reachable_sent || lia).
    cbn [fst]. now rewrite recorded_beyond by (apply reachable_sent || lia).
  - intros st h si fuel Hh Hsi Hfuel.
    destruct (Integrate_made_and_drained st h si fuel Hh Hsi Hfuel)
      as (st' & Hrun & _ & Ho & _).
    eexists _, st', _.
    split; [eapply made_and_defaulted; eauto using reachable_sent|].
    split.
    { pose proof Hrun as (op0 & st0 & Hinit & Hrun0)%bind_inv.
      erewrite bind_ret by exact Hinit.
      unfold step_until_fixpoint_and_return.
      now erewrite bind_ret by exact Hrun0. }
    split; [exact Ho|]. split; [apply default_sent|].
    intros t Ht. pose proof Ht as Ht'. rewrite timestamp_sent_map in Ht'.
    rewrite getitem_reachable by (apply reachable_sent || lia).
    cbn [fst]. now rewrite recorded_beyond by (apply reachable_sent || lia).
Qed.
End set_default_claims.

(** C1 (set_default and the drain that sets a new default): the code at
    an input where it does not do what its names say.
    [step_until_fixpoint_set_new_default_then_return] takes the latest value
    of the output and passes it to [set_default], and [__getitem__] looks up
    the default in force in [default_changes]; but the body of [set_default]
    was never written, so nothing records the value.  After [set_default 7]
    the default of an integer stream is still 0, and a later read returns 0.
    The drain of a [Delay] over the stream that was sent 3 returns an output
    whose latest value is 3 while its default is 0 and the read at the next
    timestamp returns 0. *)
Lemma set_default_drops_the_new_default :
  let s := sent (T := Z) [3] in
  default (set_default 7 s) <> 7
  /\ fst (getitem 2 (set_default 7 s)) <> Ret 7
  /\ exists (out : StreamHandle) (st' : Store Z) (so : Stream Z),
      (d <- Delay_init 0%nat ;;
       step_until_fixpoint_set_new_default_then_return 3 d) [s]
      = (Ret out, st')
      /\ st' !! out = Some so
      /\ fst (latest so) = Ret 3
      /\ default so <> 3
      /\ fst (getitem (get_current_time so + 1) so) <> Ret 3.
Proof.
  vm_compute. split; [discriminate|]. split; [discriminate|].
  eexists _, _, _. split; [reflexivity|]. split; [reflexivity|].
  split; [reflexivity|]. split; discriminate.
Qed.

Lemma set_default_is_a_placeholder_witness :
  exists (out : StreamHandle) (st' : Store Z) (so : Stream Z),
    (d <- Delay_init 0%nat ;;
     step_until_fixpoint_set_new_default_then_return 3 d) [sent [3]]
    = (Ret out, st')
    /\ st' !! out = Some so
    /\ default so = 0.
Proof.
  destruct (proj1 (proj2 (set_default_is_a_placeholder (T := Z)))
              [sent [3]] 0%nat (sent [3]) 3%nat)
    as (out & st' & so & Hrun & _ & Ho & Hd & _).
  - reflexivity.
  - apply reachable_sent.
  - vm_compute. lia.
  - exists out, st', so. repeat split; assumption.
Defined.

(** * Further properties of the code *)

(** ** Streams: iteration, sends and the sparse representation *)

Section further_stream_facts.
Context {T : Type} `{EqDecision T} `{Group.AbelianGroupOperation T}.
Implicit Types (l : list T) (s : Stream T) (v : T).

Lemma iter_timestamps_recorded (ks : list nat) s :
  reachable s ->
  Forall (fun k => Z.of_nat k <= timestamp s) ks ->
  iter_timestamps (map Z.of_nat ks) s = (Ret (map (values s) ks), s).
Proof.
  intros Hs. induction 1 as [|k ks Hk _ IH]; [reflexivity|].
  cbn [map iter_timestamps].
  rewrite getitem_reachable, advance_below by (auto; lia).
  now rewrite IH.
Qed.

Lemma map_values_sent l :
  map (values (sent l)) (seq 0 (S (length l))) = Group.identity :: l.
Proof.
  cbn [seq map]. f_equal.
  - unfold values. now rewrite recorded_sent.
  - rewrite (map_ext _ (value_at l)) by (intros; apply values_sent).
    rewrite map_value_at_pad by lia.
    unfold pad. now rewrite Nat.sub_diag, app_nil_r.
Qed.

(** X1 (Stream.__iter__, Stream.to_list).  The list of a stream made by
    the constructor and the sends [l] is the identity followed by [l]: one
    element for each timestamp from 0 to the cursor, defaults included, and
    the iteration leaves the stream as it was. *)
Theorem to_list_sent l :
  to_list (sent l) = (Ret (Group.identity :: l), sent l).
Proof.
  unfold to_list, get_current_time. rewrite timestamp_sent.
  replace (Z.to_nat (Z.of_nat (length l) + 1)) with (S (length l)) by lia.
  rewrite iter_timestamps_recorded.
  - now rewrite map_values_sent.
  - apply reachable_sent.
  - apply List.Forall_forall. intros k [_ Hk]%in_seq.
    rewrite timestamp_sent. lia.
Qed.

(** X2 (Stream.send, Stream.latest, Stream.__getitem__).  After a send to
    a reachable stream the latest element is the one sent, whether or not
    it was recorded, the cursor is one more, and every read at an earlier
    timestamp returns what it returned before. *)
Theorem send_appends v s :
  reachable s ->
  latest (send v s) = (Ret v, send v s)
  /\ get_current_time (send v s) = get_current_time s + 1
  /\ forall t, t <= get_current_time s ->
       fst (getitem t (send v s)) = fst (getitem t s).
Proof.
  intros Hs. pose proof (timestamp_reachable _ Hs) as Hts.
  destruct (reachable_inv _ Hs) as [l ->].
  unfold latest, get_current_time. rewrite timestamp_send, timestamp_sent.
  split; [|split; [reflexivity|]].
  - rewrite getitem_reachable by (try lia; constructor; apply reachable_sent).
    rewrite advance_below by (rewrite timestamp_send, timestamp_sent; lia).
    replace (Z.of_nat (length l) + 1) with (Z.of_nat (S (length l))) by lia.
    now rewrite recorded_send_last.
  - intros t Ht. destruct (Z.lt_ge_cases t 0).
    + now rewrite !getitem_negative.
    + rewrite !getitem_reachable
        by (try lia; try constructor; apply reachable_sent).
      cbn [fst]. now rewrite recorded_send_other by lia.
Qed.

Lemma od_get_compressed (lo hi k : Z) (d : list (Z * T)) :
  compressed lo hi d -> k <= lo \/ hi < k -> od_get k d = None.
Proof.
  revert lo. induction d as [|[k' w] d IH]; intros lo Hd Hk; [reflexivity|].
  destruct Hd as (Hk' & _ & Hd). simpl.
  rewrite decide_False by lia. apply (IH k'); [assumption|lia].
Qed.

Lemma od_set_append (k : Z) (w : T) (d : list (Z * T)) :
  od_get k d = None -> od_set k w d = d ++ [(k, w)].
Proof.
  induction d as [|[k0 v0] d IH]; simpl; [reflexivity|].
  destruct (decide (k0 = k)); [discriminate|].
  intros Hd. now rewrite IH.
Qed.

Lemma compressed_wider (lo hi hi' : Z) (d : list (Z * T)) :
  compressed lo hi d -> hi <= hi' -> compressed lo hi' d.
Proof.
  revert lo. induction d as [|[k w] d IH]; intros lo Hd Hhi; [exact I|].
  destruct Hd as (Hk & Hw & Hd). repeat split; auto; try lia.
Qed.

Lemma compressed_snoc (lo hi : Z) (w : T) (d : list (Z * T)) :
  compressed lo hi d -> lo <= hi -> w <> Group.identity ->
  compressed lo (hi + 1) (d ++ [(hi + 1, w)]).
Proof.
  revert lo. induction d as [|[k v] d IH]; intros lo Hd Hlo Hw.
  - simpl. repeat split; auto; lia.
  - destruct Hd as (Hk & Hv & Hd). simpl.
    repeat split; auto; try lia. apply IH; auto; lia.
Qed.

(** The representation invariant, on lists of sends. *)
Lemma sent_compressed l :
  compressed 0 (Z.of_nat (length l)) (inner (sent l))
  /\ identity (sent l) = bool_decide (inner (sent l) = []).
Proof.
  induction l as [|v l [IHc IHi]] using rev_ind.
  - change (sent []) with (Stream_init (T := T)).
    now rewrite inner_init, identity_init.
  - rewrite sent_snoc, identity_send, IHi, default_sent, length_app.
    cbn [length]. replace (Z.of_nat (length l + 1))
      with (Z.of_nat (length l) + 1) by lia.
    unfold send. rewrite default_sent, timestamp_sent.
    destruct (decide (v = Group.identity)) as [->|Hv]; cbn [inner].
    + rewrite (bool_decide_eq_true_2 (Group.identity = Group.identity))
        by reflexivity.
      rewrite andb_true_r. split; [|reflexivity].
      eapply compressed_wider; eauto; lia.
    + rewrite (bool_decide_eq_false_2 (v = Group.identity)) by assumption.
      rewrite andb_false_r.
      rewrite od_set_append
        by (eapply od_get_compressed; eauto; lia).
      split; [apply compressed_snoc; auto; lia|].
      symmetry. apply bool_decide_eq_false_2.
      now destruct (inner (sent l)).
Qed.

(** X3 (Stream.__init__, Stream.send).  Every stream the constructor and
    [send] produce keeps the sparse representation: the cursor is not
    negative, the recorded timestamps increase strictly and lie between 1
    and the cursor, no recorded value is the group identity, the flag
    [identity] is true exactly when nothing is recorded, and the default
    and its history are those of the constructor. *)
Theorem reachable_compressed s :
  reachable s ->
  0 <= get_current_time s
  /\ compressed 0 (get_current_time s) (inner s)
  /\ identity s = bool_decide (inner s = [])
  /\ default s = Group.identity
  /\ default_changes s = [(0, Group.identity)].
Proof.
  intros [l ->]%reachable_inv. unfold get_current_time.
  rewrite timestamp_sent, default_sent, default_changes_sent.
  destruct (sent_compressed l) as [Hc Hi].
  repeat split; auto. lia.
Qed.

(** X4 (Stream.__getitem__).  On every stream record, reachable or not, a
    read changes at most the cursor: a negative timestamp leaves the stream
    alone, any other timestamp leaves [inner], the flag, the default and
    its history alone and makes the cursor the larger of the cursor and the
    timestamp, also when the read ends in a [KeyError].  The loop of the
    read always ends. *)
Theorem getitem_changes_cursor_only s (t : Z) :
  snd (getitem t s) = (if t <? 0 then s else advance t s)
  /\ fst (getitem t s) <> OutOfFuel
  /\ (0 <= t ->
      fst (getitem t s) = Raise KeyError \/ exists x, fst (getitem t s) = Ret x).
Proof.
  unfold getitem; simpl. unfold get_current_time.
  destruct (Z.ltb_spec t 0).
  { split; [reflexivity|]. split; [discriminate|lia]. }
  assert (forall s' : Stream T,
             getitem_recorded t s' <> OutOfFuel
             /\ (getitem_recorded t s' = Raise KeyError
                 \/ exists x, getitem_recorded t s' = Ret x)) as Hrec.
  { intros s'. unfold getitem_recorded.
    destruct (od_get _ (default_changes s')); split;
      try discriminate; eauto. }
  destruct (Z.leb_spec t (timestamp s)).
  - rewrite advance_below by assumption. cbn [fst snd].
    split; [reflexivity|]. split; [apply Hrec|]. intros _. apply Hrec.
  - rewrite (send_default_while_advance _ t s) by lia.
    destruct (Z.ltb_spec t 0); [lia|]. simpl.
    destruct (Z.leb_spec t (Z.max (timestamp s) t)); [|lia].
    cbn [fst snd].
    split; [reflexivity|]. split; [apply Hrec|]. intros _. apply Hrec.
Qed.

(** Two reachable streams with the same cursor and the same [inner] are the
    same record. *)
Lemma reachable_ext s1 s2 :
  reachable s1 -> reachable s2 ->
  timestamp s1 = timestamp s2 -> inner s1 = inner s2 -> s1 = s2.
Proof.
  intros [l1 ->]%reachable_inv [l2 ->]%reachable_inv Hts Hin.
  pose proof (proj2 (sent_compressed l1)) as H1.
  pose proof (proj2 (sent_compressed l2)) as H2.
  pose proof (default_sent l1) as D1. pose proof (default_sent l2) as D2.
  pose proof (default_changes_sent l1) as C1.
  pose proof (default_changes_sent l2) as C2.
  destruct (sent l1), (sent l2). simpl in *. now subst.
Qed.

Lemma Stream_eq_reachable_iff s1 s2 :
  reachable s1 -> reachable s2 ->
  Stream_eq s1 s2 = true <->
  (identity s1 = true /\ identity s2 = true) \/ s1 = s2.
Proof.
  intros H1 H2. unfold Stream_eq, is_identity_stream, get_current_time.
  destruct (identity s1 && identity s2) eqn:Hid.
  - apply andb_true_iff in Hid. tauto.
  - split.
    + destruct (Z.eqb_spec (timestamp s1) (timestamp s2)); [|discriminate].
      simpl. intros Hin%bool_decide_eq_true. right.
      now apply reachable_ext.
    + intros [[E1 E2]| ->].
      * rewrite E1, E2 in Hid. discriminate.
      * rewrite Z.eqb_refl. simpl. now apply bool_decide_eq_true_2.
Qed.

(** X5 (Stream.__eq__).  Two reachable streams are equal for [__eq__]
    exactly when both are identity streams or they agree in every field;
    two streams that are not both identity streams and differ in their
    cursors are never equal, whatever their values. *)
Theorem Stream_eq_reachable s1 s2 :
  reachable s1 -> reachable s2 ->
  (Stream_eq s1 s2 = true <->
   (identity s1 = true /\ identity s2 = true) \/ s1 = s2)
  /\ (identity s1 && identity s2 = false ->
      get_current_time s1 <> get_current_time s2 ->
      Stream_eq s1 s2 = false).
Proof.
  intros H1 H2. split; [now apply Stream_eq_reachable_iff|].
  intros Hid Hts. unfold Stream_eq, is_identity_stream. rewrite Hid.
  now destruct (Z.eqb_spec (get_current_time s1) (get_current_time s2)).
Qed.

(** X6 (Stream.__eq__).  On reachable streams [__eq__] is an equivalence:
    reflexive, symmetric and transitive. *)
Theorem Stream_eq_equivalence s1 s2 s3 :
  reachable s1 -> reachable s2 -> reachable s3 ->
  Stream_eq s1 s1 = true
  /\ (Stream_eq s1 s2 = true -> Stream_eq s2 s1 = true)
  /\ (Stream_eq s1 s2 = true -> Stream_eq s2 s3 = true ->
      Stream_eq s1 s3 = true).
Proof.
  intros H1 H2 H3. split; [apply Stream_eq_refl|]. split.
  - rewrite !Stream_eq_reachable_iff by assumption.
    intros [[E1 E2]| ->]; auto.
  - rewrite !Stream_eq_reachable_iff by assumption.
    intros [[E1 E2]| ->] [[E2' E3]| <-]; auto.
Qed.

(** X7 (Stream.__getitem__, Stream.__eq__).  A read beyond the cursor
    moves the cursor, so the stream it leaves is equal to the stream before
    the read only if that was an identity stream: a stream that recorded a
    value is no longer equal to its former self. *)
Theorem Stream_eq_after_read_beyond s (t : Z) :
  reachable s -> get_current_time s < t ->
  Stream_eq (snd (getitem t s)) s = identity s.
Proof.
  intros Hs Ht. unfold get_current_time in Ht.
  pose proof (timestamp_reachable _ Hs).
  rewrite getitem_reachable by (auto; lia). cbn [snd].
  unfold Stream_eq, is_identity_stream, get_current_time.
  cbn [advance identity timestamp inner].
  destruct (identity s); [reflexivity|]. simpl.
  now destruct (Z.eqb_spec (Z.max (timestamp s) t) (timestamp s)); [lia|].
Qed.
End further_stream_facts.

(** ** Lift1, and StreamAddition.neg *)

Section further_lift1_facts.
Context {T : Type} `{EqDecision T} `{Group.AbelianGroupOperation T}.
Implicit Types (st : Store T) (s : Stream T) (h : StreamHandle).

Lemma Lift1_inv_step hi ho f si k op st :
  hi <> ho -> reachable si -> Z.of_nat k <= timestamp si ->
  Lift1_inv hi ho f si k op st ->
  if decide (timestamp si = Z.of_nat k) then
    step op st = (Ret (true, op), st)
  else
    exists st',
      step op st = (Ret (false, Lift1_at hi ho f (S k)), st')
      /\ Lift1_inv hi ho f si (S k) (Lift1_at hi ho f (S k)) st'.
Proof.
  intros Hne Hsi Hk (-> & Hi & Ho).
  pose proof (Lift1_step_eq (Lift1_at hi ho f k) st _ _ Hi Ho Hne Hsi
                ltac:(simpl; lia)) as HL.
  cbn [step Lift1_Operator]. rewrite HL. clear HL.
  cbn [Lift1_at Lift1_input Lift1_output f1 frontier].
  rewrite timestamp_sent_map.
  destruct (decide (timestamp si = Z.of_nat k)) as [Heq|Hneq].
  - rewrite decide_True by lia. reflexivity.
  - rewrite decide_False by lia.
    replace (Z.of_nat k + 1) with (Z.of_nat (S k)) by lia.
    rewrite advance_below by lia.
    change (f (recorded si (Z.of_nat (S k))))
      with ((fun j => f (values si j)) (1 + k)%nat).
    rewrite sent_map_seq_S.
    eexists. split; [reflexivity|]. split; [reflexivity|].
    split; lookup_any.
Qed.

Lemma Lift1_made_and_drained st h f si fuel :
  st !! h = Some si -> reachable si ->
  (Z.to_nat (timestamp si) < fuel)%nat ->
  exists st',
    (op <- Lift1_init h f ;; step_until_fixpoint fuel op) st
    = (Ret (Lift1_at h (length st) f (Z.to_nat (timestamp si))), st')
    /\ st' !! h = Some si
    /\ st' !! length st
       = Some (sent (map (fun j => f (values si j))
                         (seq 1 (Z.to_nat (timestamp si)))))
    /\ step (Lift1_at h (length st) f (Z.to_nat (timestamp si))) st'
       = (Ret (true, Lift1_at h (length st) f (Z.to_nat (timestamp si))),
          st').
Proof.
  intros Hh Hsi Hfuel.
  pose proof (timestamp_reachable _ Hsi) as Hts.
  assert (h <> length st) as Hne by (apply lookup_alloc_ne; congruence).
  erewrite bind_ret by (eapply Lift1_init_eq; eauto).
  set (n := Z.to_nat (timestamp si)) in *.
  assert (Z.of_nat n = timestamp si) as Hn by (unfold n; lia).
  destruct (step_until_fixpoint_invariant
              (Lift1_inv h (length st) f si)
              (fun op st' =>
                 Lift1_inv h (length st) f si n op st'
                 /\ step op st' = (Ret (true, op), st'))
              n)
    with (fuel := fuel) (k := 0%nat) (op := Lift1_at h (length st) f 0)
         (st := st ++ [Stream_init])
    as (op' & st' & Hrun & (-> & Hi & Ho) & Hstep).
  - intros k op st0 Hk HInv.
    assert (Z.of_nat k <= timestamp si) as Hle by lia.
    pose proof (Lift1_inv_step _ _ _ _ _ _ _ Hne Hsi Hle HInv) as Hstep.
    destruct (decide _) in Hstep; [lia|].
    destruct Hstep as (st' & Hstep & HInv'). eauto.
  - intros op st0 HInv.
    assert (Z.of_nat n <= timestamp si) as Hle by lia.
    pose proof (Lift1_inv_step _ _ _ _ _ _ _ Hne Hsi Hle HInv) as Hstep.
    destruct (decide _) in Hstep; [|lia]. eauto.
  - lia.
  - split; [reflexivity|]. split; [now apply lookup_alloc_old|].
    apply lookup_alloc.
  - lia.
  - exists st'. auto.
Qed.

(** A reachable stream is the stream that was sent its own values. *)
Lemma sent_values s :
  reachable s ->
  sent (map (values s) (seq 1 (Z.to_nat (timestamp s)))) = s.
Proof.
  intros [l ->]%reachable_inv. rewrite timestamp_sent, Nat2Z.id.
  rewrite (map_ext _ (value_at l)) by (intros; apply values_sent).
  rewrite map_value_at_pad by lia.
  unfold pad. now rewrite Nat.sub_diag, app_nil_r.
Qed.

(** X8 (Lift1.step, step_until_fixpoint).  A new [Lift1] over a reachable
    stream, drained, leaves the input as it was and an output with the
    cursor of the input that holds the function of the input's value at
    every timestamp from 1 to the cursor.  At timestamp 0 the output holds
    the identity of the group: the function is never applied to the value
    at 0.  A further step returns true and changes nothing. *)
Theorem Lift1_drained_maps st h (f : T -> T) si fuel :
  st !! h = Some si -> reachable si ->
  (Z.to_nat (get_current_time si) < fuel)%nat ->
  exists (op : Lift1) (st' : Store T) (so : Stream T),
    (op <- Lift1_init h f ;; step_until_fixpoint fuel op) st = (Ret op, st')
    /\ st' !! Lift1_output op = Some so
    /\ st' !! h = Some si
    /\ get_current_time so = get_current_time si
    /\ fst (getitem 0 so) = Ret Group.identity
    /\ (forall t, 1 <= t <= get_current_time si ->
        exists x, fst (getitem t si) = Ret x
                  /\ fst (getitem t so) = Ret (f x))
    /\ Lift1_step op st' = (Ret (true, op), st').
Proof.
  intros Hh Hsi Hfuel. unfold get_current_time in *.
  pose proof (timestamp_reachable _ Hsi) as Hts.
  destruct (Lift1_made_and_drained st h f si fuel Hh Hsi Hfuel)
    as (st' & Hrun & Hi & Ho & Hstep).
  eexists _, st', _. split; [exact Hrun|]. split; [exact Ho|].
  split; [exact Hi|]. split; [rewrite timestamp_sent_map; lia|].
  split; [|split; [|exact Hstep]].
  - rewrite getitem_reachable by (apply reachable_sent || lia).
    cbn [fst]. now rewrite recorded_sent_Z by lia.
  - intros t Ht. exists (recorded si t).
    rewrite getitem_reachable by (auto; lia). split; [reflexivity|].
    rewrite getitem_reachable by (apply reachable_sent || lia).
    cbn [fst]. f_equal. rewrite recorded_sent_Z by lia.
    replace (Z.to_nat t) with (S (Z.to_nat (t - 1))) by lia.
    rewrite value_at_map_seq1 by lia. unfold values.
    do 2 f_equal. lia.
Qed.

(** X9 (Lift1.step).  Lifting the identity function reproduces the input:
    the drained output agrees with the input in every field, and so it is
    equal to it for [__eq__]. *)
Theorem Lift1_identity_function st h si fuel :
  st !! h = Some si -> reachable si ->
  (Z.to_nat (get_current_time si) < fuel)%nat ->
  exists (op : Lift1) (st' : Store T),
    (op <- Lift1_init h (fun x => x) ;; step_until_fixpoint fuel op) st
    = (Ret op, st')
    /\ st' !! Lift1_output op = Some si
    /\ st' !! h = Some si
    /\ Lift1_output op <> h.
Proof.
  intros Hh Hsi Hfuel. unfold get_current_time in *.
  destruct (Lift1_made_and_drained st h (fun x => x) si fuel Hh Hsi Hfuel)
    as (st' & Hrun & Hi & Ho & _).
  eexists _, st'. split; [exact Hrun|].
  rewrite sent_values in Ho by assumption.
  split; [exact Ho|]. split; [exact Hi|].
  cbn [Lift1_at Lift1_output]. apply lookup_lt_Some in Hh. lia.
Qed.
End further_lift1_facts.

(** ** StreamAddition: the values of add and neg, and the group laws *)

Section further_addition_facts.
Context {T : Type} `{EqDecision T} `{Group.AbelianGroupOperation T}.
Implicit Types (st : Store T) (s : Stream T) (h : StreamHandle).

(** Copying the default of a reachable stream to another changes nothing:
    every default is the identity. *)
Lemma copy_default_same (flag : bool) (hs ho : StreamHandle) st ss so :
  st !! hs = Some ss -> st !! ho = Some so -> default ss = default so ->
  (if flag then
     d <- on_stream hs (reading default) ;;
     on_stream ho (writing (assign_default d))
   else ret tt) st
  = (Ret tt, st).
Proof.
  intros Hs Ho Hd. destruct flag; [|reflexivity].
  erewrite bind_ret by (apply on_stream_reading; eauto).
  erewrite on_stream_writing by eauto. rewrite Hd.
  replace (assign_default (default so) so) with so by now destruct so.
  now rewrite list_insert_id.
Qed.

Lemma default_advance (t : Z) s : default (advance t s) = default s.
Proof. reflexivity. Qed.

Lemma default_of_reachable s : reachable s -> default s = Group.identity.
Proof. intros [l ->]%reachable_inv. apply default_sent. Qed.

Lemma StreamAddition_add_eq st a b sa sb fuel :
  st !! a = Some sa -> st !! b = Some sb ->
  reachable sa -> reachable sb ->
  (Z.to_nat (Z.max (timestamp sa) (timestamp sb)) < fuel)%nat ->
  exists st',
    StreamAddition_add fuel a b st = (Ret (length st), st')
    /\ st' !! a = Some (advance (Z.max (timestamp sa) (timestamp sb)) sa)
    /\ st' !! b = Some (advance (Z.max (timestamp sa) (timestamp sb)) sb)
    /\ st' !! length st
       = Some (sent (map (pointwise_sum sa sb)
                      (seq 1 (Z.to_nat (Z.max (timestamp sa) (timestamp sb)))))).
Proof.
  intros Ha Hb Hsa Hsb Hfuel.
  assert (a <> length st) as Hao by (apply lookup_alloc_ne; congruence).
  assert (b <> length st) as Hbo by (apply lookup_alloc_ne; congruence).
  destruct (LiftedGroupAdd_drained a b (length st) sa sb
              (st ++ [Stream_init]) fuel)
    as (st1 & Hrun & Ha1 & Hb1 & Ho1); auto.
  { intros ->. congruence. }
  { now apply lookup_alloc_old. }
  { now apply lookup_alloc_old. }
  { apply lookup_alloc. }
  set (m := Z.max (timestamp sa) (timestamp sb)) in *.
  exists st1. split; [|auto].
  unfold StreamAddition_add, LiftedGroupAdd_init.
  erewrite bind_ret by (eapply Lift2_init_eq; eauto).
  unfold step_until_fixpoint_and_return.
  erewrite (bind_ret (bind _ _)).
  2:{ erewrite bind_ret by exact Hrun. reflexivity. }
  cbn [output_handle Lift2_Operator LiftedGroupAdd_at Lift2_output].
  erewrite bind_ret by (apply on_stream_reading; exact Ha1).
  erewrite bind_ret.
  2:{ eapply copy_default_same; [exact Hb1|exact Ho1|].
      now rewrite default_advance, default_sent, default_of_reachable. }
  erewrite bind_ret by (apply on_stream_reading; exact Hb1).
  erewrite bind_ret.
  2:{ eapply copy_default_same; [exact Ha1|exact Ho1|].
      now rewrite default_advance, default_sent, default_of_reachable. }
  reflexivity.
Qed.

Lemma StreamAddition_neg_eq st a sa fuel :
  st !! a = Some sa -> reachable sa ->
  (Z.to_nat (timestamp sa) < fuel)%nat ->
  exists st',
    StreamAddition_neg fuel a st = (Ret (length st), st')
    /\ st' !! a = Some sa
    /\ st' !! length st
       = Some (sent (map (fun j => group_neg (values sa j))
                         (seq 1 (Z.to_nat (timestamp sa))))).
Proof.
  intros Ha Hsa Hfuel.
  destruct (Lift1_made_and_drained st a group_neg sa fuel Ha Hsa Hfuel)
    as (st' & Hrun & Hi & Ho & _).
  exists st'. split; [|auto].
  unfold StreamAddition_neg, LiftedGroupNegate_init.
  now erewrite made_and_returned_last by exact Hrun.
Qed.

Lemma recorded_in_range_or_identity s (t : Z) :
  reachable s -> 0 <= t -> fst (getitem t s) = Ret (recorded s t).
Proof. intros Hs Ht. now rewrite getitem_reachable. Qed.

(** X10 (StreamAddition.neg, LiftedGroupNegate).  [neg(a)] returns a new
    stream with the cursor of [a] that holds the inverse of [a]'s value at
    every timestamp from 1 to the cursor and the identity at 0; unlike
    [add], it leaves its operand as it was. *)
Theorem StreamAddition_neg_negates st a sa fuel :
  st !! a = Some sa -> reachable sa ->
  (Z.to_nat (get_current_time sa) < fuel)%nat ->
  exists (out : StreamHandle) (st' : Store T) (so : Stream T),
    StreamAddition_neg fuel a st = (Ret out, st')
    /\ out <> a
    /\ st' !! out = Some so /\ st' !! a = Some sa
    /\ get_current_time so = get_current_time sa
    /\ fst (getitem 0 so) = Ret Group.identity
    /\ forall t, 1 <= t <= get_current_time sa ->
         exists x, fst (getitem t sa) = Ret x
                   /\ fst (getitem t so) = Ret (Group.neg x).
Proof.
  intros Ha Hsa Hfuel. unfold get_current_time in *.
  pose proof (timestamp_reachable _ Hsa) as Hts.
  destruct (StreamAddition_neg_eq st a sa fuel Ha Hsa Hfuel)
    as (st' & Hrun & Ha' & Ho).
  eexists _, st', _. split; [exact Hrun|].
  split; [apply lookup_lt_Some in Ha; lia|].
  split; [exact Ho|]. split; [exact Ha'|].
  split; [rewrite timestamp_sent_map; lia|]. split.
  - rewrite getitem_reachable by (apply reachable_sent || lia).
    cbn [fst]. now rewrite recorded_sent_Z by lia.
  - intros t Ht. exists (recorded sa t).
    rewrite getitem_reachable by (auto; lia). split; [reflexivity|].
    rewrite getitem_reachable by (apply reachable_sent || lia).
    cbn [fst]. f_equal. rewrite recorded_sent_Z by lia.
    replace (Z.to_nat t) with (S (Z.to_nat (t - 1))) by lia.
    rewrite value_at_map_seq1 by lia. unfold values, group_neg.
    do 2 f_equal. lia.
Qed.

(** X11 (StreamAddition.add, LiftedGroupAdd).  [add(a, b)] returns a new
    stream whose cursor is the larger of the two cursors and which holds,
    at every timestamp from 1 to that cursor, the sum of the values of [a]
    and [b] there, an operand that ends earlier counting as the identity;
    at 0 it holds the identity. *)
Theorem StreamAddition_add_pointwise st a b sa sb fuel :
  st !! a = Some sa -> st !! b = Some sb ->
  reachable sa -> reachable sb ->
  (Z.to_nat (Z.max (get_current_time sa) (get_current_time sb)) < fuel)%nat ->
  exists (out : StreamHandle) (st' : Store T) (so : Stream T),
    StreamAddition_add fuel a b st = (Ret out, st')
    /\ st' !! out = Some so
    /\ get_current_time so
       = Z.max (get_current_time sa) (get_current_time sb)
    /\ fst (getitem 0 so) = Ret Group.identity
    /\ (forall t, 1 <= t <= get_current_time so ->
        exists x y,
          fst (getitem t sa) = Ret x /\ fst (getitem t sb) = Ret y
          /\ fst (getitem t so) = Ret (Group.add x y))
    /\ (forall t, get_current_time sa < t ->
        fst (getitem t sa) = Ret Group.identity).
Proof.
  intros Ha Hb Hsa Hsb Hfuel. unfold get_current_time in *.
  pose proof (timestamp_reachable _ Hsa) as Htsa.
  pose proof (timestamp_reachable _ Hsb) as Htsb.
  destruct (StreamAddition_add_eq st a b sa sb fuel Ha Hb Hsa Hsb Hfuel)
    as (st' & Hrun & _ & _ & Ho).
  eexists _, st', _. split; [exact Hrun|]. split; [exact Ho|].
  rewrite timestamp_sent_map.
  split; [lia|]. split; [|split].
  - rewrite getitem_reachable by (apply reachable_sent || lia).
    cbn [fst]. now rewrite recorded_sent_Z by lia.
  - intros t Ht. exists (recorded sa t), (recorded sb t).
    rewrite !recorded_in_range_or_identity by (auto; lia).
    split; [reflexivity|]. split; [reflexivity|].
    rewrite getitem_reachable by (apply reachable_sent || lia).
    cbn [fst]. f_equal. rewrite recorded_sent_Z by lia.
    replace (Z.to_nat t) with (S (Z.to_nat (t - 1))) by lia.
    rewrite value_at_map_seq1 by lia. unfold pointwise_sum, values, group_add.
    now replace (Z.of_nat (S (Z.to_nat (t - 1)))) with t by lia.
  - intros t Ht. rewrite getitem_reachable by (auto; lia).
    cbn [fst]. now rewrite recorded_beyond.
Qed.
End further_addition_facts.

Section further_group_laws.
Context {T : Type} `{EqDecision T} `{Group.AbelianGroupOperation T}.
Context `{!Group.Laws T}.
Implicit Types (st : Store T) (s : Stream T) (h : StreamHandle).

Lemma neg_involutive (a : T) : Group.neg (Group.neg a) = a.
Proof.
  rewrite <- (Group.add_identity (Group.neg (Group.neg a))).
  rewrite <- (Group.add_neg a) at 1.
  rewrite (Group.add_comm a), Group.add_assoc.
  rewrite (Group.add_comm (Group.neg (Group.neg a))), Group.add_neg.
  now rewrite Group.add_comm, Group.add_identity.
Qed.

Lemma all_default_map_identity {A} (l : list A) :
  all_default (map (fun _ => Group.identity (T := T)) l) = true.
Proof.
  induction l as [|x l IH]; [reflexivity|]. simpl.
  now rewrite bool_decide_eq_true_2.
Qed.

Lemma timestamp_init : timestamp (Stream_init (T := T)) = 0.
Proof. apply (timestamp_sent []). Qed.

(** X12 (StreamAddition.neg).  Over a group that keeps its laws, negating
    a reachable stream twice gives a new stream that agrees with it in
    every field. *)
Theorem StreamAddition_neg_involutive st a sa fuel :
  st !! a = Some sa -> reachable sa ->
  (Z.to_nat (get_current_time sa) < fuel)%nat ->
  exists (out : StreamHandle) (st' : Store T),
    neg_neg_pipeline fuel a st = (Ret out, st')
    /\ out <> a
    /\ st' !! out = Some sa.
Proof.
  intros Ha Hsa Hfuel. unfold get_current_time in *.
  pose proof (timestamp_reachable _ Hsa) as Hts.
  destruct (StreamAddition_neg_eq st a sa fuel Ha Hsa Hfuel)
    as (st1 & Hrun1 & Ha1 & Ho1).
  destruct (StreamAddition_neg_eq st1 (length st) _ fuel Ho1
              (reachable_sent _))
    as (st2 & Hrun2 & _ & Ho2).
  { now rewrite timestamp_sent_map, Nat2Z.id. }
  rewrite timestamp_sent_map, Nat2Z.id in Ho2.
  exists (length st1), st2. split.
  { unfold neg_neg_pipeline. erewrite bind_ret by exact Hrun1.
    exact Hrun2. }
  split.
  { apply lookup_lt_Some in Ha1. lia. }
  rewrite Ho2. f_equal.
  transitivity (sent (map (values sa) (seq 1 (Z.to_nat (timestamp sa)))));
    [|now apply sent_values].
  f_equal. apply map_ext_in. intros j [Hj1 Hj2]%in_seq.
  rewrite values_sent_map by lia. unfold group_neg. apply neg_involutive.
Qed.

(** X13 (StreamAddition.add).  Over a group that keeps its laws, addition
    of streams commutes: from the same store, [add(a, b)] and [add(b, a)]
    return streams that agree in every field. *)
Theorem StreamAddition_add_commutes st a b sa sb fuel :
  st !! a = Some sa -> st !! b = Some sb ->
  reachable sa -> reachable sb ->
  (Z.to_nat (Z.max (get_current_time sa) (get_current_time sb)) < fuel)%nat ->
  exists (out1 out2 : StreamHandle) (st1 st2 : Store T) (so : Stream T),
    StreamAddition_add fuel a b st = (Ret out1, st1)
    /\ StreamAddition_add fuel b a st = (Ret out2, st2)
    /\ st1 !! out1 = Some so /\ st2 !! out2 = Some so.
Proof.
  intros Ha Hb Hsa Hsb Hfuel. unfold get_current_time in *.
  destruct (StreamAddition_add_eq st a b sa sb fuel Ha Hb Hsa Hsb Hfuel)
    as (st1 & Hrun1 & _ & _ & Ho1).
  destruct (StreamAddition_add_eq st b a sb sa fuel Hb Ha Hsb Hsa)
    as (st2 & Hrun2 & _ & _ & Ho2); [now rewrite Z.max_comm|].
  eexists _, _, st1, st2, _. split; [exact Hrun1|]. split; [exact Hrun2|].
  split; [exact Ho1|].
  rewrite Ho2, (Z.max_comm (timestamp sb)). do 2 f_equal.
  apply map_ext. intros j. unfold pointwise_sum, group_add.
  apply Group.add_comm.
Qed.

(** X14 (StreamAddition.add, StreamAddition.neg).  Over a group that keeps
    its laws, [add(a, neg(a))] is an identity stream: nothing is recorded
    in it, every read returns the identity, and it is equal for [__eq__]
    to a new stream, though its cursor is that of [a]. *)
Theorem StreamAddition_add_neg_is_identity st a sa fuel :
  st !! a = Some sa -> reachable sa ->
  (Z.to_nat (get_current_time sa) < fuel)%nat ->
  exists (out : StreamHandle) (st' : Store T) (so : Stream T),
    add_neg_pipeline fuel a st = (Ret out, st')
    /\ st' !! out = Some so
    /\ is_identity_stream so = true
    /\ inner so = []
    /\ get_current_time so = get_current_time sa
    /\ Stream_eq so Stream_init = true
    /\ forall t, 0 <= t -> fst (getitem t so) = Ret Group.identity.
Proof.
  intros Ha Hsa Hfuel. unfold get_current_time in *.
  pose proof (timestamp_reachable _ Hsa) as Hts.
  destruct (StreamAddition_neg_eq st a sa fuel Ha Hsa Hfuel)
    as (st1 & Hrun1 & Ha1 & Ho1).
  destruct (StreamAddition_add_eq st1 a (length st) sa _ fuel Ha1 Ho1 Hsa
              (reachable_sent _))
    as (st2 & Hrun2 & _ & _ & Ho2).
  { rewrite timestamp_sent_map. lia. }
  rewrite timestamp_sent_map in Ho2.
  replace (Z.max (timestamp sa) (Z.of_nat (Z.to_nat (timestamp sa))))
    with (timestamp sa) in Ho2 by lia.
  set (n := Z.to_nat (timestamp sa)) in *.
  assert (map (pointwise_sum sa
                 (sent (map (fun j => group_neg (values sa j)) (seq 1 n))))
              (seq 1 n)
          = map (fun _ => Group.identity) (seq 1 n)) as Hsum.
  { apply map_ext_in. intros j [Hj1 Hj2]%in_seq. unfold pointwise_sum.
    rewrite values_sent_map by lia. apply Group.add_neg. }
  rewrite Hsum in Ho2.
  assert (identity (sent (map (fun _ : nat => Group.identity (T := T))
                              (seq 1 n))) = true) as Hid
    by now rewrite identity_sent, all_default_map_identity.
  assert (inner (sent (map (fun _ : nat => Group.identity (T := T))
                           (seq 1 n))) = []) as Hin.
  { pose proof (proj2 (sent_compressed
                         (map (fun _ : nat => Group.identity (T := T))
                              (seq 1 n)))) as Hflag.
    rewrite Hid in Hflag. symmetry in Hflag.
    now apply bool_decide_eq_true in Hflag. }
  eexists _, st2, _. split.
  { unfold add_neg_pipeline. erewrite bind_ret by exact Hrun1. exact Hrun2. }
  split; [exact Ho2|]. split; [exact Hid|]. split; [exact Hin|].
  split; [rewrite timestamp_sent_map; unfold n; lia|]. split.
  - unfold Stream_eq, is_identity_stream. now rewrite Hid, identity_init.
  - intros t Ht. rewrite getitem_reachable by (apply reachable_sent || lia).
    cbn [fst]. unfold recorded. now rewrite Hin.
Qed.

(** X15 (StreamAddition.add, StreamAddition.identity).  Over a group that
    keeps its laws, [add(a, identity())] returns a stream that agrees with
    [a] in every field; the new identity stream is left with the cursor of
    [a]. *)
Theorem StreamAddition_add_identity st a sa fuel :
  st !! a = Some sa -> reachable sa ->
  (Z.to_nat (get_current_time sa) < fuel)%nat ->
  exists (out zero : StreamHandle) (st' : Store T) (sz : Stream T),
    add_identity_pipeline fuel a st = (Ret out, st')
    /\ st' !! out = Some sa
    /\ st' !! a = Some sa
    /\ out <> a /\ zero <> a /\ out <> zero
    /\ st' !! zero = Some sz
    /\ get_current_time sz = get_current_time sa
    /\ is_identity_stream sz = true.
Proof.
  intros Ha Hsa Hfuel. unfold get_current_time in *.
  pose proof (timestamp_reachable _ Hsa) as Hts.
  pose proof (lookup_lt_Some _ _ _ Ha) as Hlt.
  destruct (StreamAddition_add_eq (st ++ [Stream_init]) a (length st)
              sa Stream_init fuel)
    as (st2 & Hrun2 & Ha2 & Hz2 & Ho2).
  { now apply lookup_alloc_old. }
  { apply lookup_alloc. }
  { assumption. }
  { constructor. }
  { rewrite timestamp_init. lia. }
  rewrite timestamp_init in *.
  replace (Z.max (timestamp sa) 0) with (timestamp sa) in * by lia.
  rewrite advance_below in Ha2 by lia.
  rewrite length_app in *. cbn [length] in *.
  eexists _, (length st), st2, _. split.
  { unfold add_identity_pipeline, StreamAddition_identity.
    erewrite (bind_ret new_stream) by reflexivity. exact Hrun2. }
  split.
  { rewrite Ho2. f_equal.
    transitivity (sent (map (values sa) (seq 1 (Z.to_nat (timestamp sa)))));
      [|now apply sent_values].
    f_equal. apply map_ext. intros j. unfold pointwise_sum, group_add.
    replace (values Stream_init j) with (Group.identity (T := T)).
    - apply Group.add_identity.
    - unfold values, recorded. now rewrite inner_init. }
  split; [exact Ha2|]. split; [lia|]. split; [lia|]. split; [lia|].
  split; [exact Hz2|]. split; [simpl; rewrite timestamp_init; lia|].
  apply identity_init.
Qed.
End further_group_laws.

(** ** Steps at and after the fixpoint, unbound inputs, and delays in a row *)

Section further_step_facts.
Context {T : Type} `{EqDecision T} `{Group.AbelianGroupOperation T}.
Implicit Types (st : Store T) (s : Stream T) (h : StreamHandle).

(** X16 (Lift2.step, BinaryOperator.input_b).  A [Lift2] whose second
    input was never bound raises on every step, before anything is written,
    and so does draining it, whatever the fuel. *)
Theorem Lift2_unbound_input_raises (op : Lift2) st sa fuel :
  Lift2_input_b op = None -> st !! Lift2_input_a op = Some sa ->
  Lift2_step op st = (Raise AttributeError, st)
  /\ step_until_fixpoint (S fuel) op st = (Raise AttributeError, st).
Proof.
  intros Hb Ha.
  assert (Lift2_step op st = (Raise AttributeError, st)) as Hstep.
  { unfold Lift2_step.
    erewrite bind_ret by (apply on_stream_reading; eauto).
    unfold input_b. now rewrite Hb. }
  split; [exact Hstep|]. cbn [step_until_fixpoint step Lift2_Operator].
  unfold bind. now rewrite Hstep.
Qed.

(** X17 (Integrate.step, Differentiate.step).  The fixpoint of the two
    composite operators is not a resting state.  After a new [Integrate]
    or [Differentiate] was drained, one more step returns true again, and
    yet it sends one more value to the output and moves the input one
    timestamp forward, so both cursors are one more than before. *)
Theorem composite_step_after_fixpoint_advances st h si fuel :
  st !! h = Some si -> reachable si ->
  (rounds (get_current_time si) <= fuel)%nat ->
  (exists (op op2 : Integrate) (st1 st2 : Store T) (so1 so2 si1 si2 : Stream T),
      (i <- Integrate_init h ;; step_until_fixpoint fuel i) st = (Ret op, st1)
      /\ st1 !! Integrate_output op = Some so1 /\ st1 !! h = Some si1
      /\ Integrate_step op st1 = (Ret (true, op2), st2)
      /\ st2 !! Integrate_output op2 = Some so2 /\ st2 !! h = Some si2
      /\ get_current_time so2 = get_current_time so1 + 1
      /\ get_current_time si2 = get_current_time si1 + 1)
  /\ (exists (op op2 : Differentiate) (st1 st2 : Store T)
             (so1 so2 si1 si2 : Stream T),
      (d <- Differentiate_init h ;; step_until_fixpoint fuel d) st
      = (Ret op, st1)
      /\ st1 !! Differentiate_output op = Some so1 /\ st1 !! h = Some si1
      /\ Differentiate_step op st1 = (Ret (true, op2), st2)
      /\ st2 !! Differentiate_output op2 = Some so2 /\ st2 !! h = Some si2
      /\ get_current_time so2 = get_current_time so1 + 1
      /\ get_current_time si2 = get_current_time si1 + 1).
Proof.
  intros Hh Hsi Hfuel. unfold get_current_time in *.
  pose proof (timestamp_reachable _ Hsi) as Hts.
  pose proof (lookup_lt_Some _ _ _ Hh) as Hlt.
  set (m := rounds (timestamp si)) in *.
  assert (timestamp si <= Z.of_nat m) as Hm by (unfold m, rounds; lia).
  assert (h <> length st) as N1 by lia.
  assert (h <> S (length st)) as N2 by lia.
  assert (length st <> S (length st)) as N3 by lia.
  assert (h <> S (S (length st))) as N4 by lia.
  assert (length st <> S (S (length st))) as N5 by lia.
  assert (S (length st) <> S (S (length st))) as N6 by lia.
  split.
  - destruct (Integrate_drained h (length st) (S (length st)) si
                ((st ++ [Stream_init]) ++ [Stream_init]) fuel)
      as (st1 & Hrun & HInv); auto; try lia.
    { now do 2 apply lookup_alloc_old. }
    { apply lookup_alloc_old, lookup_alloc. }
    { replace (S (length st)) with (length (st ++ [Stream_init]))
        by (rewrite length_app; simpl; lia).
      apply lookup_alloc. }
    fold m in Hrun, HInv.
    destruct (Integrate_inv_step _ _ _ _ _ _ _ _ N1 N2 N3 Hsi HInv)
      as (st2 & Hstep & (_ & Hi2 & _ & Ho2 & _)).
    destruct HInv as (_ & Hi1 & _ & Ho1 & _).
    eexists _, _, st1, st2, _, _, _, _. split.
    { erewrite bind_ret by (eapply Integrate_init_eq; eauto). exact Hrun. }
    split; [exact Ho1|]. split; [exact Hi1|]. split.
    { cbn [step Integrate_Operator] in Hstep. rewrite Hstep.
      now rewrite (proj2 (Z.eqb_eq _ _)) by lia. }
    split; [exact Ho2|]. split; [exact Hi2|].
    rewrite !timestamp_sent_map. simpl. lia.
  - destruct (Differentiate_drained h (length st) (S (length st))
                (S (S (length st))) si
                (((st ++ [Stream_init]) ++ [Stream_init]) ++ [Stream_init])
                fuel)
      as (st1 & Hrun & HInv); auto; try lia.
    { now do 3 apply lookup_alloc_old. }
    { do 2 apply lookup_alloc_old. apply lookup_alloc. }
    { apply lookup_alloc_old.
      replace (S (length st)) with (length (st ++ [Stream_init]))
        by (rewrite length_app; simpl; lia).
      apply lookup_alloc. }
    { replace (S (S (length st)))
        with (length ((st ++ [Stream_init]) ++ [Stream_init]))
        by (rewrite !length_app; simpl; lia).
      apply lookup_alloc. }
    fold m in Hrun, HInv.
    destruct (Differentiate_inv_step _ _ _ _ _ _ _ _ _
                N1 N2 N4 N3 N5 N6 Hsi HInv)
      as (st2 & Hstep & (_ & Hi2 & _ & _ & Ho2 & _)).
    destruct HInv as (_ & Hi1 & _ & _ & Ho1 & _).
    eexists _, _, st1, st2, _, _, _, _. split.
    { erewrite bind_ret by (eapply Differentiate_init_eq; eauto).
      exact Hrun. }
    split; [exact Ho1|]. split; [exact Hi1|]. split.
    { cbn [step Differentiate_Operator] in Hstep. rewrite Hstep.
      now rewrite (proj2 (Z.eqb_eq _ _)) by lia. }
    split; [exact Ho2|]. split; [exact Hi2|].
    rewrite !timestamp_sent_map. simpl. lia.
Qed.

(** X18 (Delay.step, Lift2.step).  The fixpoint of the elementary
    operators is a resting state: after a new [Delay], or the adder of
    [StreamAddition.add], was drained, a further step returns true and
    leaves the store and the operator as they are. *)
Theorem elementary_fixpoint_is_stable st h h' si si' fuel :
  st !! h = Some si -> st !! h' = Some si' ->
  reachable si -> reachable si' ->
  (Z.to_nat (Z.max (get_current_time si) (get_current_time si')) + 1
   < fuel)%nat ->
  (exists (d : Delay) (st1 : Store T),
      (d <- Delay_init h ;; step_until_fixpoint fuel d) st = (Ret d, st1)
      /\ Delay_step d st1 = (Ret (true, d), st1))
  /\ (exists (op : Lift2) (st1 : Store T),
      (op <- LiftedGroupAdd_init h (Some h') ;; step_until_fixpoint fuel op) st
      = (Ret op, st1)
      /\ Lift2_step op st1 = (Ret (true, op), st1)).
Proof.
  intros Hh Hh' Hsi Hsi' Hfuel. unfold get_current_time in *.
  pose proof (timestamp_reachable _ Hsi) as Hts.
  pose proof (timestamp_reachable _ Hsi') as Hts'.
  pose proof (lookup_lt_Some _ _ _ Hh) as Hlt.
  pose proof (lookup_lt_Some _ _ _ Hh') as Hlt'.
  split.
  - assert (Z.to_nat (timestamp si) + 1 < fuel)%nat as Hf by lia.
    destruct (Delay_made_and_drained st h si fuel Hh Hsi Hf)
      as (st1 & Hrun & Hi & Ho).
    eexists _, st1. split; [exact Hrun|].
    rewrite (Delay_step_eq (mkDelay h (length st)) st1 _ _ Hi Ho Hsi)
      by (rewrite timestamp_sent_map; lia).
    rewrite timestamp_sent_map.
    now destruct (Z.leb_spec (Z.of_nat (S (Z.to_nat (timestamp si))))
                   (timestamp si)); [lia|].
  - destruct (LiftedGroupAdd_drained h h' (length st) si si'
                (st ++ [Stream_init]) fuel)
      as (st1 & Hrun & Ha1 & Hb1 & Ho1); auto; try lia.
    { intros ->. congruence. }
    { now apply lookup_alloc_old. }
    { now apply lookup_alloc_old. }
    { apply lookup_alloc. }
    set (m := Z.max (timestamp si) (timestamp si')) in *.
    eexists _, st1. split.
    { unfold LiftedGroupAdd_init.
      erewrite bind_ret by (eapply Lift2_init_eq; eauto). exact Hrun. }
    pose proof (LiftedGroupAdd_inv_step h h' (length st) si si'
                  (Z.to_nat m)
                  (LiftedGroupAdd_at h h' (length st) (Z.to_nat m)) st1)
      as Hstep.
    destruct (decide _) in Hstep; [|lia].
    cbn [step Lift2_Operator] in Hstep. apply Hstep; auto; try lia.
    { intros ->. congruence. }
    split; [reflexivity|].
    replace (Z.of_nat (Z.to_nat m)) with m by lia. auto.
Qed.

(** X19 (Delay.step, step_until_fixpoint).  Delays add up: a [Delay] over
    the drained output of a [Delay] over a reachable stream leaves an
    output whose cursor is two more than the input's, which holds the
    identity at 0 and at 1 and the input's value at [t - 2] from 2 on. *)
Theorem Delay_of_Delay_shifts_by_two st h si fuel :
  st !! h = Some si -> reachable si ->
  (Z.to_nat (get_current_time si) + 2 < fuel)%nat ->
  exists (out : StreamHandle) (st' : Store T) (so : Stream T),
    Delay_of_Delay fuel h st = (Ret out, st')
    /\ st' !! out = Some so
    /\ get_current_time so = get_current_time si + 2
    /\ fst (getitem 0 so) = Ret Group.identity
    /\ fst (getitem 1 so) = Ret Group.identity
    /\ forall t, 2 <= t <= get_current_time so ->
         fst (getitem t so) = fst (getitem (t - 2) si).
Proof.
  intros Hh Hsi Hfuel. unfold get_current_time in *.
  pose proof (timestamp_reachable _ Hsi) as Hts.
  assert (Z.to_nat (timestamp si) + 1 < fuel)%nat as Hf by lia.
  destruct (Delay_made_and_drained st h si fuel Hh Hsi Hf)
    as (st1 & Hrun1 & _ & Ho1).
  set (n := Z.to_nat (timestamp si)) in *.
  assert (Z.of_nat n = timestamp si) as Hn by (unfold n; lia).
  destruct (Delay_made_and_drained st1 (length st) _ fuel Ho1
              (reachable_sent _))
    as (st2 & Hrun2 & _ & Ho2).
  { rewrite timestamp_sent_map. lia. }
  rewrite timestamp_sent_map, Nat2Z.id in Ho2.
  set (x1 := values (sent (map (values si) (seq 0 (S n))))) in *.
  assert (x1 0%nat = Group.identity) as Hx0
    by (unfold x1; now rewrite values_sent).
  assert (forall j, (j <= n)%nat -> x1 (S j) = values si j) as Hx1.
  { intros j Hj. unfold x1. rewrite values_sent.
    apply value_at_map_seq0. lia. }
  eexists _, st2, _. split.
  { unfold Delay_of_Delay.
    erewrite made_and_returned by exact Hrun1.
    erewrite made_and_returned_last by exact Hrun2. reflexivity. }
  split; [exact Ho2|]. split; [rewrite timestamp_sent_map; lia|].
  split; [|split].
  - rewrite getitem_reachable by (apply reachable_sent || lia).
    cbn [fst]. now rewrite recorded_sent_Z by lia.
  - rewrite getitem_reachable by (apply reachable_sent || lia).
    cbn [fst]. rewrite recorded_sent_Z by lia.
    change (Z.to_nat 1) with 1%nat.
    now rewrite value_at_map_seq0, Hx0 by lia.
  - intros t Ht. rewrite timestamp_sent_map in Ht.
    rewrite !getitem_reachable
      by first [apply reachable_sent | assumption | lia].
    cbn [fst]. f_equal. rewrite recorded_sent_Z by lia.
    replace (Z.to_nat t) with (S (S (Z.to_nat (t - 2)))) by lia.
    rewrite value_at_map_seq0, Hx1 by lia. unfold values.
    f_equal. lia.
Qed.
End further_step_facts.

(** ** The join of two Z-sets *)

Section join_facts.
Context {A B C : Type} `{EqDecision C}.
Implicit Types (L : list (A * Z)) (R : list (B * Z)) (d : list (C * Z)).
Implicit Types (p : A -> B -> bool) (f : A -> B -> C) (k : C).

Lemma dict_get_add k k' (w : Z) d :
  dict_get k (dict_add k' w d)
  = if decide (k' = k) then add_weight (dict_get k d) w else dict_get k d.
Proof.
  induction d as [|[k0 w0] d IH]; simpl.
  - destruct (decide (k' = k)); reflexivity.
  - destruct (decide (k0 = k')) as [->|Hne]; simpl.
    + destruct (decide (k' = k)); reflexivity.
    + rewrite IH. destruct (decide (k0 = k)) as [->|Hk]; [|reflexivity].
      now rewrite decide_False by congruence.
Qed.

Lemma add_weights_total (ws : list Z) (x : Z) :
  fold_left add_weight ws (Some x) = Some (x + total ws).
Proof.
  revert x. induction ws as [|w ws IH]; intros x.
  - simpl. f_equal. lia.
  - cbn [fold_left]. change (add_weight (Some x) w) with (Some (x + w)).
    rewrite IH. f_equal. unfold total. simpl. lia.
Qed.

Lemma join_right_get p f (lv : A) (lw : Z) R d k :
  dict_get k (join_right p f lv lw R d)
  = fold_left add_weight
      (flat_map (fun r => if p lv (fst r) && bool_decide (f lv (fst r) = k)
                          then [lw * snd r] else []) R)
      (dict_get k d).
Proof.
  unfold join_right. revert d.
  induction R as [|[rv rw] R IH]; intros d; [reflexivity|].
  cbn [fold_left flat_map fst snd]. rewrite IH, fold_left_app. f_equal.
  destruct (p lv rv); simpl; [|reflexivity].
  rewrite dict_get_add.
  destruct (decide (f lv rv = k)).
  - now rewrite bool_decide_eq_true_2.
  - now rewrite bool_decide_eq_false_2.
Qed.

Lemma join_from_get p f L R d k :
  dict_get k
    (fold_left (fun output left_item =>
                  let '(left_value, left_weight) := left_item in
                  join_right p f left_value left_weight R output) L d)
  = fold_left add_weight (contributions L R p f k) (dict_get k d).
Proof.
  unfold contributions. revert d.
  induction L as [|[lv lw] L IH]; intros d; [reflexivity|].
  cbn [fold_left flat_map fst snd].
  now rewrite IH, fold_left_app, join_right_get.
Qed.

Lemma join_get p f L R k :
  dict_get k (join L R p f)
  = match contributions L R p f k with
    | [] => None
    | ws => Some (total ws)
    end.
Proof.
  unfold join. rewrite join_from_get. cbn [dict_get].
  destruct (contributions L R p f k) as [|w ws]; [reflexivity|].
  cbn [fold_left]. change (add_weight None w) with (Some w).
  now rewrite add_weights_total.
Qed.

(** X20 (join).  The weight of a key in the dictionary that [join] builds
    is the sum, over the pairs of a left and a right item that satisfy [p]
    and that [f] projects to the key, of the product of their weights; a
    key no pair projects to is absent. *)
Theorem join_weight_is_sum_of_products p f L R k :
  dict_get k (join L R p f)
  = match contributions L R p f k with
    | [] => None
    | ws => Some (total ws)
    end.
Proof. apply join_get. Qed.

Lemma contributions_nonempty p f L R k :
  contributions L R p f k <> [] <->
  exists l r, In l L /\ In r R /\ p (fst l) (fst r) = true
              /\ f (fst l) (fst r) = k.
Proof.
  split.
  - intros Hne. destruct (contributions L R p f k) as [|w ws] eqn:E;
      [congruence|].
    assert (In w (contributions L R p f k)) as Hw by (rewrite E; now left).
    unfold contributions in Hw.
    apply in_flat_map in Hw as (l & Hl & Hw).
    apply in_flat_map in Hw as (r & Hr & Hw).
    destruct (p (fst l) (fst r)) eqn:Hp; [|destruct Hw].
    destruct (bool_decide (f (fst l) (fst r) = k)) eqn:Hf; [|destruct Hw].
    apply bool_decide_eq_true in Hf. now exists l, r.
  - intros (l & r & Hl & Hr & Hp & Hf) E.
    assert (In (snd l * snd r) (contributions L R p f k)) as Hw.
    { unfold contributions. apply in_flat_map. exists l. split; [auto|].
      apply in_flat_map. exists r. split; [auto|].
      rewrite Hp, bool_decide_eq_true_2 by assumption. now left. }
    rewrite E in Hw. destruct Hw.
Qed.

(** X21 (join).  A key is in the result of [join] exactly when some pair
    of items satisfies [p] and is projected to it, whatever the weights:
    when the products for a key cancel, the key stays, with weight 0. *)
Theorem join_keeps_cancelled_keys p f L R k :
  (dict_get k (join L R p f) <> None <->
   exists l r, In l L /\ In r R /\ p (fst l) (fst r) = true
               /\ f (fst l) (fst r) = k)
  /\ (contributions L R p f k <> [] ->
      total (contributions L R p f k) = 0 ->
      dict_get k (join L R p f) = Some 0).
Proof.
  split.
  - rewrite <- contributions_nonempty, join_get.
    destruct (contributions L R p f k); split; congruence.
  - intros Hne Hz. rewrite join_get.
    destruct (contributions L R p f k); [congruence|]. now rewrite Hz.
Qed.

(** X22 (join).  With an empty Z-set on either side, or with a [p] that
    no pair satisfies, [join] builds the empty dictionary. *)
Theorem join_empty p f L R :
  join [] R p f = []
  /\ join L [] p f = []
  /\ ((forall l r, In l L -> In r R -> p (fst l) (fst r) = false) ->
      join L R p f = []).
Proof.
  assert (forall L' R',
             (forall l r, In l L' -> In r R' -> p (fst l) (fst r) = false) ->
             join L' R' p f = []) as Hnone.
  { intros L' R' Hp. unfold join.
    induction L' as [|[lv lw] L' IH]; [reflexivity|].
    cbn [fold_left].
    assert (join_right p f lv lw R' [] = []) as ->.
    { unfold join_right.
      assert (forall r, In r R' -> p lv (fst r) = false) as Hr
        by (intros r Hr; apply (Hp (lv, lw) r); [now left|assumption]).
      clear Hp IH. induction R' as [|[rv rw] R' IHR]; [reflexivity|].
      cbn [fold_left].
      pose proof (Hr (rv, rw) (or_introl eq_refl)) as Hp. cbn [fst] in Hp.
      rewrite Hp. simpl. apply IHR. intros r Hin. apply Hr. now right. }
    apply IH. intros l r Hl Hr. apply Hp; [now right|assumption]. }
  split; [reflexivity|]. split; [|apply Hnone].
  apply Hnone. intros l r _ [].
Qed.

Lemma dict_add_scale (c : Z) k (w : Z) d :
  dict_add k (c * w) (scale_dict c d) = scale_dict c (dict_add k w d).
Proof.
  induction d as [|[k0 w0] d IH]; [reflexivity|].
  change (scale_dict c ((k0, w0) :: d))
    with ((k0, c * w0) :: scale_dict c d).
  cbn [dict_add]. destruct (decide (k0 = k)).
  - change (scale_dict c ((k0, w0 + w) :: d))
      with ((k0, c * (w0 + w)) :: scale_dict c d).
    do 2 f_equal. lia.
  - rewrite IH. reflexivity.
Qed.

(** X23 (join).  [join] is linear in the weights of its left argument:
    multiplying every left weight by [c] multiplies every weight of the
    result by [c] and changes neither the keys nor their order. *)
Theorem join_scales_left (c : Z) p f L R :
  join (scale_left c L) R p f = scale_dict c (join L R p f).
Proof.
  assert (forall (lv : A) (lw : Z) d,
             join_right p f lv (c * lw) R (scale_dict c d)
             = scale_dict c (join_right p f lv lw R d)) as Hright.
  { intros lv lw. unfold join_right.
    induction R as [|[rv rw] R IHR]; intros d; [reflexivity|].
    cbn [fold_left]. destruct (p lv rv); simpl; [|apply IHR].
    replace (c * lw * rw) with (c * (lw * rw)) by lia.
    rewrite dict_add_scale. apply IHR. }
  assert (forall d,
             fold_left (fun output left_item =>
                          let '(left_value, left_weight) := left_item in
                          join_right p f left_value left_weight R output)
                       (scale_left c L) (scale_dict c d)
             = scale_dict c
                 (fold_left (fun output left_item =>
                               let '(left_value, left_weight) := left_item in
                               join_right p f left_value left_weight R output)
                            L d)) as Hgen.
  { induction L as [|[lv lw] L IH]; intros d; [reflexivity|].
    cbn [scale_left map fold_left fst snd].
    rewrite Hright. apply IH. }
  exact (Hgen []).
Qed.
End join_facts.

(** ** What a drained composite operator does to its input *)

Section further_input_effect.
Context {T : Type} `{EqDecision T} `{Group.AbelianGroupOperation T}.
Implicit Types (st : Store T) (s : Stream T) (h : StreamHandle).

End further_input_effect.

(** ** The further properties at concrete inputs *)

Lemma send_appends_witness :
  reachable (sent (T := Z) [3; 0])
  /\ latest (send 0 (sent [3; 0])) = (Ret 0, send 0 (sent [3; 0])).
Proof.
  split; [apply reachable_sent|].
  apply (send_appends 0 (sent [3; 0])). apply reachable_sent.
Defined.

Lemma reachable_compressed_witness :
  reachable (sent (T := Z) [3; 0; 5])
  /\ compressed 0 (get_current_time (sent (T := Z) [3; 0; 5]))
       (inner (sent (T := Z) [3; 0; 5])).
Proof.
  split; [apply reachable_sent|].
  apply (reachable_compressed (sent [3; 0; 5])). apply reachable_sent.
Defined.

Lemma getitem_changes_cursor_only_witness :
  0 <= 4
  /\ snd (getitem 4 (sent (T := Z) [3])) = advance 4 (sent [3]).
Proof.
  split; [lia|].
  exact (proj1 (getitem_changes_cursor_only (sent (T := Z) [3]) 4)).
Defined.

Lemma Stream_eq_reachable_witness :
  reachable (sent (T := Z) [3]) /\ reachable (sent (T := Z) [3; 0])
  /\ Stream_eq (sent (T := Z) [3]) (sent [3; 0]) = false.
Proof.
  split; [apply reachable_sent|]. split; [apply reachable_sent|].
  apply (proj2 (Stream_eq_reachable (sent [3]) (sent [3; 0])
                  (reachable_sent _) (reachable_sent _)));
    [reflexivity | vm_compute; discriminate].
Defined.

Lemma Stream_eq_equivalence_witness :
  Stream_eq (sent (T := Z) [0]) (sent [0; 0]) = true
  /\ Stream_eq (sent (T := Z) [0; 0]) (sent []) = true
  /\ Stream_eq (sent (T := Z) [0]) (sent []) = true.
Proof.
  split; [reflexivity|]. split; [reflexivity|].
  apply (proj2 (proj2 (Stream_eq_equivalence (sent [0]) (sent [0; 0])
                         (sent []) (reachable_sent _) (reachable_sent _)
                         (reachable_sent _))));
    reflexivity.
Defined.

Lemma Stream_eq_after_read_beyond_witness :
  get_current_time (sent (T := Z) [3]) < 4
  /\ Stream_eq (snd (getitem 4 (sent (T := Z) [3]))) (sent [3]) = false.
Proof.
  split; [vm_compute; reflexivity|].
  rewrite (Stream_eq_after_read_beyond (sent [3]) 4);
    [reflexivity | apply reachable_sent | vm_compute; reflexivity].
Defined.

Lemma Lift1_drained_maps_witness :
  exists (op : Lift1) (st' : Store Z) (so : Stream Z),
    (op <- Lift1_init 0%nat (fun x => x + 7) ;; step_until_fixpoint 3 op)
      [sent [3; 5]]
    = (Ret op, st')
    /\ st' !! Lift1_output op = Some so
    /\ fst (getitem 0 so) = Ret 0.
Proof.
  destruct (Lift1_drained_maps (T := Z) [sent [3; 5]] 0%nat
              (fun x => x + 7) (sent [3; 5]) 3%nat)
    as (op & st' & so & Hrun & Ho & _ & _ & H0 & _).
  - reflexivity.
  - apply reachable_sent.
  - vm_compute. lia.
  - exists op, st', so. repeat split; assumption.
Defined.

Lemma Lift1_identity_function_witness :
  exists (op : Lift1) (st' : Store Z),
    (op <- Lift1_init 0%nat (fun x => x) ;; step_until_fixpoint 3 op)
      [sent [3; 5]]
    = (Ret op, st')
    /\ st' !! Lift1_output op = Some (sent [3; 5]).
Proof.
  destruct (Lift1_identity_function (T := Z) [sent [3; 5]] 0%nat
              (sent [3; 5]) 3%nat)
    as (op & st' & Hrun & Ho & _).
  - reflexivity.
  - apply reachable_sent.
  - vm_compute. lia.
  - exists op, st'. split; assumption.
Defined.

Lemma StreamAddition_neg_negates_witness :
  exists (out : StreamHandle) (st' : Store Z) (so : Stream Z),
    StreamAddition_neg 3 0%nat [sent [3; 5]] = (Ret out, st')
    /\ st' !! out = Some so
    /\ st' !! 0%nat = Some (sent [3; 5]).
Proof.
  destruct (StreamAddition_neg_negates (T := Z) [sent [3; 5]] 0%nat
              (sent [3; 5]) 3%nat)
    as (out & st' & so & Hrun & _ & Ho & Ha & _).
  - reflexivity.
  - apply reachable_sent.
  - vm_compute. lia.
  - exists out, st', so. repeat split; assumption.
Defined.

Lemma StreamAddition_add_pointwise_witness :
  exists (out : StreamHandle) (st' : Store Z) (so : Stream Z),
    StreamAddition_add 3 0%nat 1%nat [sent [1; 2]; sent [5]] = (Ret out, st')
    /\ st' !! out = Some so
    /\ get_current_time so = 2.
Proof.
  destruct (StreamAddition_add_pointwise (T := Z) [sent [1; 2]; sent [5]]
              0%nat 1%nat (sent [1; 2]) (sent [5]) 3%nat)
    as (out & st' & so & Hrun & Ho & Hts & _).
  - reflexivity.
  - reflexivity.
  - apply reachable_sent.
  - apply reachable_sent.
  - vm_compute. lia.
  - exists out, st', so. repeat split; assumption.
Defined.

Lemma StreamAddition_neg_involutive_witness :
  exists (out : StreamHandle) (st' : Store Z),
    neg_neg_pipeline 3 0%nat [sent [3; 5]] = (Ret out, st')
    /\ st' !! out = Some (sent [3; 5]).
Proof.
  destruct (StreamAddition_neg_involutive (T := Z) [sent [3; 5]] 0%nat
              (sent [3; 5]) 3%nat)
    as (out & st' & Hrun & _ & Ho).
  - reflexivity.
  - apply reachable_sent.
  - vm_compute. lia.
  - exists out, st'. split; assumption.
Defined.

Lemma StreamAddition_add_commutes_witness :
  exists (out1 out2 : StreamHandle) (st1 st2 : Store Z) (so : Stream Z),
    StreamAddition_add 3 0%nat 1%nat [sent [1; 2]; sent [5]] = (Ret out1, st1)
    /\ StreamAddition_add 3 1%nat 0%nat [sent [1; 2]; sent [5]]
       = (Ret out2, st2)
    /\ st1 !! out1 = Some so /\ st2 !! out2 = Some so.
Proof.
  apply (StreamAddition_add_commutes (T := Z) [sent [1; 2]; sent [5]]
           0%nat 1%nat (sent [1; 2]) (sent [5]) 3%nat).
  - reflexivity.
  - reflexivity.
  - apply reachable_sent.
  - apply reachable_sent.
  - vm_compute. lia.
Defined.

Lemma StreamAddition_add_neg_is_identity_witness :
  exists (out : StreamHandle) (st' : Store Z) (so : Stream Z),
    add_neg_pipeline 3 0%nat [sent [3; 5]] = (Ret out, st')
    /\ st' !! out = Some so
    /\ is_identity_stream so = true.
Proof.
  destruct (StreamAddition_add_neg_is_identity (T := Z) [sent [3; 5]] 0%nat
              (sent [3; 5]) 3%nat)
    as (out & st' & so & Hrun & Ho & Hid & _).
  - reflexivity.
  - apply reachable_sent.
  - vm_compute. lia.
  - exists out, st', so. repeat split; assumption.
Defined.

Lemma StreamAddition_add_identity_witness :
  exists (out : StreamHandle) (st' : Store Z),
    add_identity_pipeline 3 0%nat [sent [3; 5]] = (Ret out, st')
    /\ st' !! out = Some (sent [3; 5]).
Proof.
  destruct (StreamAddition_add_identity (T := Z) [sent [3; 5]] 0%nat
              (sent [3; 5]) 3%nat)
    as (out & zero & st' & sz & Hrun & Ho & _).
  - reflexivity.
  - apply reachable_sent.
  - vm_compute. lia.
  - exists out, st'. split; assumption.
Defined.

Lemma Lift2_unbound_input_raises_witness :
  Lift2_step (mkLift2 0%nat None 1%nat Z.add 0 0) [sent [3]; Stream_init]
  = (Raise AttributeError, [sent [3]; Stream_init]).
Proof.
  apply (Lift2_unbound_input_raises (T := Z)
           (mkLift2 0%nat None 1%nat Z.add 0 0) [sent [3]; Stream_init]
           (sent [3]) 0%nat); reflexivity.
Defined.

Lemma composite_step_after_fixpoint_advances_witness :
  exists (op op2 : Integrate) (st1 st2 : Store Z) (si2 : Stream Z),
    (i <- Integrate_init 0%nat ;; step_until_fixpoint 2 i) [sent [3; 5]]
    = (Ret op, st1)
    /\ Integrate_step op st1 = (Ret (true, op2), st2)
    /\ st2 !! 0%nat = Some si2.
Proof.
  destruct (composite_step_after_fixpoint_advances (T := Z)
              [sent [3; 5]] 0%nat (sent [3; 5]) 2%nat)
    as [(op & op2 & st1 & st2 & so1 & so2 & si1 & si2 & Hrun & _ & _ & Hstep
         & _ & Hi2 & _) _].
  - reflexivity.
  - apply reachable_sent.
  - vm_compute. lia.
  - exists op, op2, st1, st2, si2. repeat split; assumption.
Defined.

Lemma elementary_fixpoint_is_stable_witness :
  exists (d : Delay) (st1 : Store Z),
    (d <- Delay_init 0%nat ;; step_until_fixpoint 4 d) [sent [3; 5]]
    = (Ret d, st1)
    /\ Delay_step d st1 = (Ret (true, d), st1).
Proof.
  destruct (elementary_fixpoint_is_stable (T := Z)
              [sent [3; 5]] 0%nat 0%nat (sent [3; 5]) (sent [3; 5]) 4%nat)
    as [Hdelay _].
  - reflexivity.
  - reflexivity.
  - apply reachable_sent.
  - apply reachable_sent.
  - vm_compute. lia.
  - exact Hdelay.
Defined.

Lemma Delay_of_Delay_shifts_by_two_witness :
  exists (out : StreamHandle) (st' : Store Z) (so : Stream Z),
    Delay_of_Delay 5 0%nat [sent [3; 5]] = (Ret out, st')
    /\ st' !! out = Some so
    /\ get_current_time so = 4.
Proof.
  destruct (Delay_of_Delay_shifts_by_two (T := Z) [sent [3; 5]] 0%nat
              (sent [3; 5]) 5%nat)
    as (out & st' & so & Hrun & Ho & Hts & _).
  - reflexivity.
  - apply reachable_sent.
  - vm_compute. lia.
  - exists out, st', so. repeat split; assumption.
Defined.

Lemma join_keeps_cancelled_keys_witness :
  dict_get 7 (join [(1, 2); (2, -2)] [(1, 1); (2, 1)]
                   (fun a b => a =? b) (fun _ _ => 7))
  = Some 0.
Proof.
  apply (proj2 (join_keeps_cancelled_keys (C := Z)
                  (fun a b : Z => a =? b) (fun _ _ => 7)
                  [(1, 2); (2, -2)] [(1, 1); (2, 1)] 7)).
  - vm_compute. discriminate.
  - reflexivity.
Defined.

Lemma join_empty_witness :
  join [(1, 2); (2, 3)] [(5, 1)] (fun a b : Z => a =? b) (fun a _ : Z => a)
  = [].
Proof.
  apply (proj2 (proj2 (join_empty (C := Z) (fun a b : Z => a =? b)
                         (fun a _ : Z => a) [(1, 2); (2, 3)] [(5, 1)]))).
  intros l r [<-|[<-|[]]] [<-|[]]; reflexivity.
Defined.

